(** * mysqld_exporter: the scrape / classify / expose pipeline

    A shallow embedding of [mysqld_exporter.go] and the properties of its
    status parser, metric classifier, generic-metric registry and collector.

    Conventions of the embedding.
    - A Go [string] or [[]byte] is a [string] of the standard library, that is
      a list of 8-bit characters.
    - A [float64] is a primitive binary64 [float].
    - The Go map [e.metrics] is a [gmap string loc]; the metric objects it
      points to live in a heap [gmap loc Untyped], so that the identity of a
      handle (its address) and the value it stores are told apart.
    - The outcome of every call into [database/sql] and every reading of the
      clock is supplied by a [DB] record: [scrape] is a function of it.
    - [strings.ToLower] and [strconv.ParseFloat] are the fields of the class
      [Library]; the properties hold for every instance of it. *)

From Stdlib Require Import Floats ZArith Uint63 Ascii String.
From stdpp Require Import gmap strings list fin_maps.

(** ** Regular expressions

    The five expressions of the source are sequences of single characters,
    character classes under [*] or [+], the anchors [^] and [$] and one
    capture group.  [node] is that fragment of the RE2 syntax and [run] its
    leftmost-first (backtracking) matcher, the semantics of Go's [regexp]. *)

Inductive charset : Type :=
  | CLit (c : ascii)             (* a literal character, also an escaped one *)
  | CRange (lo hi : ascii)       (* [lo-hi] *)
  | CAnyNotNL.                   (* .  (no s flag: every character but \n) *)

Inductive node : Type :=
  | NChar (cs : charset)
  | NStar (cs : charset)         (* greedy cs* *)
  | NPlus (cs : charset)         (* greedy cs+ *)
  | NBegin                       (* ^  (no m flag: beginning of text) *)
  | NEnd                         (* $  (no m flag: end of text) *)
  | NOpen                        (* ( of group 1 *)
  | NClose.                      (* ) of group 1 *)

Definition regex : Type := list node.

Definition newline : ascii := Ascii.ascii_of_nat 10.

Definition accepts (cs : charset) (c : ascii) : bool :=
  match cs with
  | CLit a => Ascii.eqb a c
  | CRange lo hi =>
      (Ascii.nat_of_ascii lo <=? Ascii.nat_of_ascii c)%nat
      && (Ascii.nat_of_ascii c <=? Ascii.nat_of_ascii hi)%nat
  | CAnyNotNL => negb (Ascii.eqb c newline)
  end.

(** Positions where group 1 opened and closed. *)
Definition group : Type := (option nat * option nat)%type.

(** The outcome of a match attempt: the end position and the group. *)
Definition outcome : Type := (nat * group)%type.

(** [greedy cs k pos s]: consume as many characters of [cs] as possible, and
    give back one at a time while the rest [k] of the expression fails. *)
Fixpoint greedy (cs : charset) (k : nat -> string -> option outcome)
    (pos : nat) (s : string) : option outcome :=
  match s with
  | String c s' =>
      if accepts cs c then
        match greedy cs k (S pos) s' with
        | Some r => Some r
        | None => k pos s
        end
      else k pos s
  | EmptyString => k pos s
  end.

(** [run re g pos s]: match [re] against the text whose suffix from position
    [pos] is [s]. *)
Fixpoint run (re : regex) (g : group) (pos : nat) (s : string) : option outcome :=
  match re with
  | [] => Some (pos, g)
  | NChar cs :: re' =>
      match s with
      | String c s' => if accepts cs c then run re' g (S pos) s' else None
      | EmptyString => None
      end
  | NStar cs :: re' => greedy cs (run re' g) pos s
  | NPlus cs :: re' =>
      match s with
      | String c s' => if accepts cs c then greedy cs (run re' g) (S pos) s' else None
      | EmptyString => None
      end
  | NBegin :: re' => if (pos =? 0)%nat then run re' g pos s else None
  | NEnd :: re' =>
      match s with
      | EmptyString => run re' g pos s
      | String _ _ => None
      end
  | NOpen :: re' => run re' (Some pos, snd g) pos s
  | NClose :: re' => run re' (fst g, Some pos) pos s
  end.

(** The leftmost match: the first start position at which [run] succeeds. *)
Fixpoint search (re : regex) (pos : nat) (s : string) : option (nat * outcome) :=
  match run re (None, None) pos s with
  | Some r => Some (pos, r)
  | None =>
      match s with
      | String _ s' => search re (S pos) s'
      | EmptyString => None
      end
  end.

(** [s[b:e]] *)
Definition slice (b e : nat) (s : string) : string := String.substring b (e - b) s.

(** [Regexp.Find]: the text of the leftmost match, [None] for Go's nil. *)
Definition Find (re : regex) (b : string) : option string :=
  match search re 0 b with
  | Some (start, (stop, _)) => Some (slice start stop b)
  | None => None
  end.

(** [Regexp.FindStringSubmatch] for an expression with one group: the
    slice [[match; group 1]], or the nil slice [[]] when nothing matches. *)
Definition FindStringSubmatch (re : regex) (s : string) : list string :=
  match search re 0 s with
  | Some (start, (stop, g)) =>
      [ slice start stop s;
        match g with
        | (Some gb, Some ge) => slice gb ge s
        | _ => ""
        end ]
  | None => []
  end.

Definition lit (s : string) : regex :=
  map (fun c => NChar (CLit c)) (list_ascii_of_string s).

Definition digit : charset := CRange "0" "9".

(** ** parseStatus *)

(** [regexp.MustCompile] of "\.([0-9]+$)". *)
Definition logRexp : regex := [NChar (CLit "."); NOpen; NPlus digit; NEnd; NClose].

(** [len] of a byte slice that may be nil. *)
Definition len (b : option string) : nat :=
  match b with
  | Some m => String.length m
  | None => 0
  end.

(** [b[1:]] *)
Definition from1 (b : option string) : string :=
  match b with
  | Some (String _ m) => m
  | _ => ""
  end.

Definition parseStatus (data : string) : string :=
  let logNum := Find logRexp data in
  if String.eqb data "Yes" then "1"
  else if String.eqb data "No" then "0"
  else if (1 <? len logNum)%nat then from1 logNum
  else data.

(** ** The classification of setMetrics *)

(** [regexp.MustCompile] of the prefix [p], as in "^com_", followed by the
    group of ".*" and by "$": [comRegex] and its three siblings. *)
Definition prefixRegex (p : string) : regex :=
  NBegin :: lit p ++ [NOpen; NStar CAnyNotNL; NClose; NEnd].

Definition comRegex : regex := prefixRegex "com_".
Definition connectionErrorRegex : regex := prefixRegex "connection_errors_".
Definition innodbRowRegex : regex := prefixRegex "innodb_rows_".
Definition performanceSchemaRegex : regex := prefixRegex "performance_schema_".

(** The metric a row is written to: one of the four labelled vectors of the
    exporter, or the map of generic metrics. *)
Inductive Family : Type :=
  | Commands
  | ConnectionErrors
  | InnodbRows
  | PerformanceSchema
  | Generic.

(** [m[1]] of a submatch slice. *)
Definition sub1 (m : list string) : string := default "" (m !! 1%nat).

(** The [switch] of [setMetrics]: the family and the label value (for
    [Generic], the key of [e.metrics]) chosen for a lower-cased name. *)
Definition classify (name : string) : Family * string :=
  let command := FindStringSubmatch comRegex name in
  let connectionError := FindStringSubmatch connectionErrorRegex name in
  let innodbRow := FindStringSubmatch innodbRowRegex name in
  let performanceSchema := FindStringSubmatch performanceSchemaRegex name in
  if (0 <? length command)%nat then (Commands, sub1 command)
  else if (0 <? length connectionError)%nat then (ConnectionErrors, sub1 connectionError)
  else if (0 <? length innodbRow)%nat then (InnodbRows, sub1 innodbRow)
  else if (0 <? length performanceSchema)%nat then (PerformanceSchema, sub1 performanceSchema)
  else (Generic, name).

(** ** The exporter and the heap of metric objects *)

Definition namespace : string := "mysql".

(** The address of a metric object: the identity of a handle. *)
Abbreviation loc := nat.

(** A [prometheus.Untyped]: the fully qualified name of its descriptor and
    the value it holds. *)
Record Untyped : Type := mkUntyped {
  fqName : string;
  stored : float;
}.

(** [prometheus.BuildFQName namespace "" name] for a non-empty namespace. *)
Definition BuildFQName (ns name : string) : string :=
  if String.eqb name "" then "" else ns +:+ "_" +:+ name.

(** [prometheus.NewUntyped(prometheus.UntypedOpts{Namespace, Name})]: the new
    object holds 0. *)
Definition NewUntyped (ns name : string) : Untyped :=
  {| fqName := BuildFQName ns name; stored := 0 |}.

(** [m.Set(value)] *)
Definition Set_ (value : float) (m : Untyped) : Untyped :=
  {| fqName := fqName m; stored := value |}.

(** The struct [Exporter], the mutex apart.  A gauge or counter is the value
    it holds, a counter vector the value of each of its children by label
    value, and [metrics] maps a name to the address of its metric. *)
Record Exporter : Type := mkExporter {
  dsn : string;
  duration : float;
  error : float;
  totalScrapes : float;
  metrics : gmap string loc;
  commands : gmap string float;
  connectionErrors : gmap string float;
  innodbRows : gmap string float;
  performanceSchema : gmap string float;
}.

(** The exporter together with the heap its handles point into; [next] is
    the address the next allocation returns. *)
Record State : Type := mkState {
  ex : Exporter;
  heap : gmap loc Untyped;
  next : loc;
}.

Definition NewMySQLExporter (dsn : string) : Exporter :=
  {| dsn := dsn; duration := 0; error := 0; totalScrapes := 0;
     metrics := ∅; commands := ∅; connectionErrors := ∅;
     innodbRows := ∅; performanceSchema := ∅ |}.

(** The process after [NewMySQLExporter]: no metric object allocated yet. *)
Definition start (dsn : string) : State :=
  {| ex := NewMySQLExporter dsn; heap := ∅; next := 0 |}.

Definition with_duration (v : float) (e : Exporter) : Exporter :=
  mkExporter (dsn e) v (error e) (totalScrapes e) (metrics e) (commands e)
    (connectionErrors e) (innodbRows e) (performanceSchema e).
Definition with_error (v : float) (e : Exporter) : Exporter :=
  mkExporter (dsn e) (duration e) v (totalScrapes e) (metrics e) (commands e)
    (connectionErrors e) (innodbRows e) (performanceSchema e).
Definition with_totalScrapes (v : float) (e : Exporter) : Exporter :=
  mkExporter (dsn e) (duration e) (error e) v (metrics e) (commands e)
    (connectionErrors e) (innodbRows e) (performanceSchema e).
Definition with_metrics (m : gmap string loc) (e : Exporter) : Exporter :=
  mkExporter (dsn e) (duration e) (error e) (totalScrapes e) m (commands e)
    (connectionErrors e) (innodbRows e) (performanceSchema e).
Definition with_commands (m : gmap string float) (e : Exporter) : Exporter :=
  mkExporter (dsn e) (duration e) (error e) (totalScrapes e) (metrics e) m
    (connectionErrors e) (innodbRows e) (performanceSchema e).
Definition with_connectionErrors (m : gmap string float) (e : Exporter) : Exporter :=
  mkExporter (dsn e) (duration e) (error e) (totalScrapes e) (metrics e) (commands e)
    m (innodbRows e) (performanceSchema e).
Definition with_innodbRows (m : gmap string float) (e : Exporter) : Exporter :=
  mkExporter (dsn e) (duration e) (error e) (totalScrapes e) (metrics e) (commands e)
    (connectionErrors e) m (performanceSchema e).
Definition with_performanceSchema (m : gmap string float) (e : Exporter) : Exporter :=
  mkExporter (dsn e) (duration e) (error e) (totalScrapes e) (metrics e) (commands e)
    (connectionErrors e) (innodbRows e) m.

Definition with_ex (f : Exporter -> Exporter) (σ : State) : State :=
  {| ex := f (ex σ); heap := heap σ; next := next σ |}.

(** ** setGenericMetric *)

Definition setGenericMetric (name : string) (value : float) (σ : State) : State :=
  (* if _, ok := e.metrics[name]; !ok { e.metrics[name] = NewUntyped(...) } *)
  let σ1 :=
    match metrics (ex σ) !! name with
    | Some _ => σ
    | None =>
        {| ex := with_metrics (<[name := next σ]> (metrics (ex σ))) (ex σ);
           heap := <[next σ := NewUntyped namespace name]> (heap σ);
           next := S (next σ) |}
    end in
  (* e.metrics[name].Set(value) *)
  match metrics (ex σ1) !! name with
  | Some h => {| ex := ex σ1; heap := alter (Set_ value) h (heap σ1); next := next σ1 |}
  | None => σ1
  end.

(** ** The database and the clock, as scrape sees them *)

Inductive result (A : Type) : Type :=
  | Ok (a : A)
  | Err.
Arguments Ok {A} a.
Arguments Err {A}.

(** A row as [rows.Next] delivers it: its column values, or the error its
    [rows.Scan] returns. *)
Definition Row : Type := result (list string).

(** [db.Query("SHOW SLAVE STATUS")]: what [rows.Columns] returns, and the rows. *)
Record SlaveStatus : Type := mkSlaveStatus {
  columns : result (list string);
  slaveRows : list Row;
}.

Record DB : Type := mkDB {
  open : result unit;                    (* sql.Open("mysql", e.dsn) *)
  globalStatus : result (list Row);      (* db.Query("SHOW GLOBAL STATUS") *)
  slaveStatus : result SlaveStatus;      (* db.Query("SHOW SLAVE STATUS") *)
  clockStart : Z;                        (* time.Now().UnixNano() on entry *)
  clockEnd : Z;                          (* time.Now().UnixNano() where the duration is set *)
}.

(** [rows.Scan] into [n] destinations: an error of the row itself, or the
    error of database/sql when the row has not [n] columns. *)
Definition Scan (n : nat) (row : Row) : Row :=
  match row with
  | Ok vs => if (length vs =? n)%nat then Ok vs else Err
  | Err => Err
  end.

(** Subtraction of [int64] wraps around. *)
Definition wrap64 (z : Z) : Z := ((z + 2 ^ 63) mod 2 ^ 64 - 2 ^ 63)%Z.

(** The conversion [float64(i)] of an [int64]: round to nearest, ties to even. *)
Definition float64_of_int64 (z : Z) : float :=
  SF2Prim (binary_normalize prec emax z 0 false).

(** [float64(time.Now().UnixNano()-now) / 1000000000] *)
Definition elapsed (db : DB) : float :=
  (float64_of_int64 (wrap64 (clockEnd db - clockStart db)) / 1000000000)%float.

(** [e.error.Set(v); e.duration.Set(elapsed)] *)
Definition finish (v : float) (db : DB) (e : Exporter) : Exporter :=
  with_duration (elapsed db) (with_error v e).

(** The first loop of [scrape]: the rows sent on the channel, and whether the
    loop ran to the end of the result set ([false]: a [Scan] error returned
    from [scrape]). *)
Fixpoint scanGlobalStatus (rows : list Row) : list (string * string) * bool :=
  match rows with
  | [] => ([], true)
  | row :: rows' =>
      match Scan 2 row with
      | Ok [key; val] =>
          let (sent, complete) := scanGlobalStatus rows' in ((key, val) :: sent, complete)
      | _ => ([], false)
      end
  end.

(** The second loop: every row is scanned into the same [slaveData]. *)
Fixpoint scanSlaveStatus (n : nat) (rows : list Row) (slaveData : list string)
    : result (list string) :=
  match rows with
  | [] => Ok slaveData
  | row :: rows' =>
      match Scan n row with
      | Ok vs => scanSlaveStatus n rows' vs
      | Err => Err
      end
  end.

(** [scrape]: the exporter after it returns and the rows it sent on
    [scrapes] before closing it. *)
Definition scrape (db : DB) (e : Exporter) : Exporter * list (string * string) :=
  let e := with_totalScrapes (totalScrapes e + 1)%float e in
  match open db with
  | Err => (finish 1 db e, [])
  | Ok _ =>
  match globalStatus db with
  | Err => (finish 1 db e, [])
  | Ok rows =>
  let (sent, complete) := scanGlobalStatus rows in
  if negb complete then (e, sent) else
  match slaveStatus db with
  | Err => (finish 1 db e, sent)
  | Ok slave =>
  match columns slave with
  | Err => (finish 1 db e, sent)
  | Ok slaveCols =>
  (* make([]sql.RawBytes, len(slaveCols)): every entry nil *)
  match scanSlaveStatus (length slaveCols) (slaveRows slave)
          (replicate (length slaveCols) "") with
  | Err => (finish 1 db e, sent)
  | Ok slaveData =>
      (finish 0 db e,
       sent ++ zip_with (fun col data => (col, parseStatus data)) slaveCols slaveData)
  end end end end end.

(** The rows of a result set whose every [Scan] succeeds. *)
Definition delivered (rows : list (string * string)) : list Row :=
  (fun r => Ok [fst r; snd r]) <$> rows.

(** The rows [scrape] sends; they do not depend on the exporter. *)
Definition rowsSent (db : DB) : list (string * string) :=
  snd (scrape db (NewMySQLExporter "")).

(** ** setMetrics, collectMetrics and Collect

    [strings.ToLower] and [strconv.ParseFloat] belong to Go's library; the
    pipeline is a function of them.  [ParseFloat s = None] stands for the
    error return. *)

Class Library : Type := {
  ToLower : string -> string;
  ParseFloat : string -> option float;
}.

(** A metric as the exposition reads it off the channel of [Collect]. *)
Record Sample : Type := mkSample {
  sampleName : string;
  sampleLabels : list (string * string);
  sampleValue : float;
}.

Section Pipeline.

Context `{Library}.

(** [vec.With(prometheus.Labels{...: label}).Set(value)] on the vector of a
    labelled family; the generic family goes through [setGenericMetric]. *)
Definition write (target : Family * string) (value : float) (σ : State) : State :=
  match target with
  | (Commands, label) =>
      with_ex (fun e => with_commands (<[label := value]> (commands e)) e) σ
  | (ConnectionErrors, label) =>
      with_ex (fun e => with_connectionErrors (<[label := value]> (connectionErrors e)) e) σ
  | (InnodbRows, label) =>
      with_ex (fun e => with_innodbRows (<[label := value]> (innodbRows e)) e) σ
  | (PerformanceSchema, label) =>
      with_ex (fun e => with_performanceSchema (<[label := value]> (performanceSchema e)) e) σ
  | (Generic, name) => setGenericMetric name value σ
  end.

(** The body of the loop of [setMetrics] for one row. *)
Definition setMetric (row : string * string) (σ : State) : State :=
  let name := ToLower (fst row) in
  match ParseFloat (snd row) with
  | None => σ                                  (* continue *)
  | Some value => write (classify name) value σ
  end.

(** [setMetrics] over the rows received until the channel is closed. *)
Definition setMetrics (scrapes : list (string * string)) (σ : State) : State :=
  foldl (fun σ row => setMetric row σ) σ scrapes.

(** [collectMetrics]: the handles of [e.metrics], in the order of the
    iteration over the map (unspecified in Go). *)
Definition collectMetrics (e : Exporter) : list loc :=
  (map_to_list (metrics e)).*2.

(** What the exposition reads from a handle. *)
Definition readUntyped (σ : State) (h : loc) : option Sample :=
  (fun m => mkSample (fqName m) [] (stored m)) <$> heap σ !! h.

(** [vec.Collect]: one sample for each child of a vector. *)
Definition collectVec (name label : string) (vec : gmap string float) : list Sample :=
  (fun kv => mkSample name [(label, fst kv)] (snd kv)) <$> map_to_list vec.

(** [Collect].  The goroutine running [scrape] writes only the three
    process metrics and [setMetrics] only the maps, and [setMetrics]
    returns when [scrape] closes the channel on its return: the state
    after any interleaving of the two is the state after [scrape] followed
    by [setMetrics] over the rows sent. *)
Definition Collect (db : DB) (σ : State) : State * list Sample :=
  let (e1, scrapes) := scrape db (ex σ) in
  let σ' := setMetrics scrapes (with_ex (fun _ => e1) σ) in
  let e := ex σ' in
  (σ',
   mkSample "mysql_exporter_last_scrape_duration_seconds" [] (duration e)
   :: mkSample "mysql_exporter_scrapes_total" [] (totalScrapes e)
   :: mkSample "mysql_exporter_last_scrape_error" [] (error e)
   :: omap (readUntyped σ') (collectMetrics e)
   ++ collectVec "mysql_commands_total" "command" (commands e)
   ++ collectVec "mysql_connection_errors_total" "error" (connectionErrors e)
   ++ collectVec "mysql_innodb_rows_total" "operation" (innodbRows e)
   ++ collectVec "mysql_performance_schema_total" "instrumentation" (performanceSchema e)).

(** The process over its lifetime: one [Collect] for each request. *)
Definition serve (dbs : list DB) (σ : State) : State :=
  foldl (fun σ db => fst (Collect db σ)) σ dbs.

(** No row of the scrape carries the name [n]. *)
Definition omits (n : string) (db : DB) : Prop :=
  Forall (fun row => ToLower (fst row) ≠ n) (rowsSent db).

(** The claim of C7 in its words: the value is canonicalized by
    [parseStatus] before it is parsed. *)
Definition setMetric_canonical (row : string * string) (σ : State) : State :=
  setMetric (fst row, parseStatus (snd row)) σ.

End Pipeline.

(** ** Vocabulary of the properties *)

(** [c] occurs in [s]. *)
Fixpoint has (c : ascii) (s : string) : bool :=
  match s with
  | EmptyString => false
  | String a s' => Ascii.eqb c a || has c s'
  end.

(** Every character of [s] satisfies [p]. *)
Fixpoint all (p : ascii -> bool) (s : string) : bool :=
  match s with
  | EmptyString => true
  | String a s' => p a && all p s'
  end.

(** One or more decimal digits. *)
Definition digits (s : string) : Prop :=
  s ≠ "" ∧ all (fun c => has c "0123456789") s = true.

(** [strip p s]: the rest of [s] after its prefix [p], when [s] has it. *)
Fixpoint strip (p s : string) : option string :=
  match p with
  | EmptyString => Some s
  | String a p' =>
      match s with
      | String b s' => if Ascii.eqb a b then strip p' s' else None
      | EmptyString => None
      end
  end.

(** The classifier in the words of its description: the four prefixes in
    order, the label being the name without the prefix. *)
Definition classify_by_prefix (name : string) : Family * string :=
  match strip "com_" name with
  | Some label => (Commands, label)
  | None =>
  match strip "connection_errors_" name with
  | Some label => (ConnectionErrors, label)
  | None =>
  match strip "innodb_rows_" name with
  | Some label => (InnodbRows, label)
  | None =>
  match strip "performance_schema_" name with
  | Some label => (PerformanceSchema, label)
  | None => (Generic, name)
  end end end end.

Definition patterns : list regex :=
  [comRegex; connectionErrorRegex; innodbRowRegex; performanceSchemaRegex].

(** Every handle of [e.metrics] points to an object allocated earlier, whose
    descriptor carries the name it is stored under; no two names share a
    handle; and every object of the heap lies below [next]. *)
Definition wf (σ : State) : Prop :=
  (∀ n h, metrics (ex σ) !! n = Some h →
     h < next σ ∧ ∃ m, heap σ !! h = Some m ∧ fqName m = BuildFQName namespace n)
  ∧ (∀ n1 n2 h,
       metrics (ex σ) !! n1 = Some h → metrics (ex σ) !! n2 = Some h → n1 = n2)
  ∧ (∀ h, is_Some (heap σ !! h) → h < next σ).

(** The value a target of [write] holds. *)
Definition readMetric (target : Family * string) (σ : State) : option float :=
  match target with
  | (Commands, label) => commands (ex σ) !! label
  | (ConnectionErrors, label) => connectionErrors (ex σ) !! label
  | (InnodbRows, label) => innodbRows (ex σ) !! label
  | (PerformanceSchema, label) => performanceSchema (ex σ) !! label
  | (Generic, name) =>
      match metrics (ex σ) !! name with
      | Some h => stored <$> heap σ !! h
      | None => None
      end
  end.

(** ** Instances of the library functions, for evaluation

    [asciiToLower] is [strings.ToLower] on ASCII text.  [parseDecimal]
    accepts the unsigned decimals [digits] and [digits.digits] of at most
    15 digits, on which it returns what [strconv.ParseFloat] returns (the
    quotient of two integers that binary64 holds exactly), and nothing else:
    like [strconv.ParseFloat] it rejects the empty text and words such as
    ON, and it also rejects the signed, exponent and other forms, which no
    scrape below contains. *)

Definition asciiLower (c : ascii) : ascii :=
  let n := Ascii.nat_of_ascii c in
  if (65 <=? n)%nat && (n <=? 90)%nat then Ascii.ascii_of_nat (n + 32) else c.

Fixpoint asciiToLower (s : string) : string :=
  match s with
  | EmptyString => EmptyString
  | String c s' => String (asciiLower c) (asciiToLower s')
  end.

(** The value of a non-empty string of decimal digits read after [acc]. *)
Fixpoint digitsValue (s : string) (acc : Z) : option Z :=
  match s with
  | EmptyString => Some acc
  | String c s' =>
      if accepts digit c
      then digitsValue s' (10 * acc + (Z.of_nat (Ascii.nat_of_ascii c) - 48))%Z
      else None
  end.

(** The text before and after the first dot. *)
Fixpoint cutDot (s : string) : string * option string :=
  match s with
  | EmptyString => (EmptyString, None)
  | String c s' =>
      if Ascii.eqb c "."
      then (EmptyString, Some s')
      else let (a, b) := cutDot s' in (String c a, b)
  end.

Definition parseDecimal (s : string) : option float :=
  let (int, frac) := cutDot s in
  let frac := default "" frac in
  if (String.length int =? 0)%nat
     || ((String.length frac =? 0)%nat && negb (String.eqb s int))
     || (15 <? String.length int + String.length frac)%nat
  then None
  else
    match digitsValue (int +:+ frac) 0 with
    | Some m =>
        Some (float64_of_int64 m
              / float64_of_int64 (10 ^ Z.of_nat (String.length frac)))%float
    | None => None
    end.

Definition asciiLibrary : Library :=
  {| ToLower := asciiToLower; ParseFloat := parseDecimal |}.

(** A server that is no replica: the replication status has its columns
    and no row. *)
Definition noReplica : result SlaveStatus :=
  Ok (mkSlaveStatus (Ok ["Slave_IO_Running"; "Seconds_Behind_Master"]) []).

Definition dbFooBar : DB :=
  mkDB (Ok ()) (Ok (delivered [("Foo_bar", "1")])) noReplica 0 1000.

Definition dbThreads : DB :=
  mkDB (Ok ()) (Ok (delivered [("Threads_connected", "5")])) noReplica 2000 3000.

Definition dbGalera : DB :=
  mkDB (Ok ()) (Ok (delivered [("wsrep_flow_control_paused", "0.5"); ("wsrep_ready", "ON")]))
    noReplica 0 1000.

Definition dbScenario : DB :=
  mkDB (Ok ())
    (Ok (delivered [("Com_select", "10"); ("Threads_connected", "5");
                    ("Innodb_rows_read", "42")]))
    noReplica 0 1500000000.

Definition dbScanError : DB :=
  mkDB (Ok ())
    (Ok [Ok ["Threads_connected"; "5"]; Err; Ok ["Uptime"; "60"]])
    noReplica 0 1000.

(** ** Describe *)

(** A [prometheus.Desc]: the fully qualified name and the names of the
    variable labels. *)
Record Desc : Type := mkDesc {
  descName : string;
  variableLabels : list string;
}.

(** What [m.Describe] sends for the metric behind a handle. *)
Definition describeUntyped (σ : State) (h : loc) : option Desc :=
  (fun m => mkDesc (fqName m) []) <$> heap σ !! h.

(** [Describe]: the descriptors of the generic metrics, in the order of the
    iteration over [e.metrics], then those of the four vectors, then those
    of the duration, the total scrapes and the error. *)
Definition Describe (σ : State) : list Desc :=
  omap (describeUntyped σ) (collectMetrics (ex σ))
  ++ [ mkDesc "mysql_commands_total" ["command"];
       mkDesc "mysql_connection_errors_total" ["error"];
       mkDesc "mysql_innodb_rows_total" ["operation"];
       mkDesc "mysql_performance_schema_total" ["instrumentation"];
       mkDesc "mysql_exporter_last_scrape_duration_seconds" [];
       mkDesc "mysql_exporter_scrapes_total" [];
       mkDesc "mysql_exporter_last_scrape_error" [] ].

(** ** Vocabulary of the further properties *)

(** The prefix the expression of a family starts with. *)
Definition prefixOf (fam : Family) : string :=
  match fam with
  | Commands => "com_"
  | ConnectionErrors => "connection_errors_"
  | InnodbRows => "innodb_rows_"
  | PerformanceSchema => "performance_schema_"
  | Generic => ""
  end.

Instance Family_eq_dec : EqDecision Family.
Proof. solve_decision. Defined.

(** The sample [Collect] emits for a target of [write] that holds [v]. *)
Definition series (target : Family * string) (v : float) : Sample :=
  match target with
  | (Commands, label) => mkSample "mysql_commands_total" [("command", label)] v
  | (ConnectionErrors, label) => mkSample "mysql_connection_errors_total" [("error", label)] v
  | (InnodbRows, label) => mkSample "mysql_innodb_rows_total" [("operation", label)] v
  | (PerformanceSchema, label) =>
      mkSample "mysql_performance_schema_total" [("instrumentation", label)] v
  | (Generic, name) => mkSample (BuildFQName namespace name) [] v
  end.

(** The descriptor a sample belongs to. *)
Definition descOf (s : Sample) : Desc :=
  mkDesc (sampleName s) (fst <$> sampleLabels s).

(** * Properties *)

(** Projections of record expressions. *)
Ltac fields :=
  cbn [ex heap next dsn duration error totalScrapes metrics commands
       connectionErrors innodbRows performanceSchema
       with_duration with_error with_totalScrapes with_metrics with_commands
       with_connectionErrors with_innodbRows with_performanceSchema with_ex
       fst snd] in *.

(** ** Strings *)

Lemma app_nil (b : string) : "" +:+ b = b.
Proof. reflexivity. Qed.

Lemma app_cons (x : ascii) (a b : string) : String x a +:+ b = String x (a +:+ b).
Proof. reflexivity. Qed.

Lemma all_ext (p q : ascii -> bool) (s : string) :
  (∀ c, p c = q c) → all p s = all q s.
Proof. intros E. induction s as [|a s IH]; simpl; [done|]. by rewrite E, IH. Qed.

Lemma all_app (p : ascii -> bool) (a b : string) :
  all p (a +:+ b) = all p a && all p b.
Proof.
  induction a as [|c a IH]; [done|].
  rewrite app_cons. simpl. rewrite IH. by destruct (p c).
Qed.

Lemma has_app (c : ascii) (a b : string) : has c (a +:+ b) = has c a || has c b.
Proof.
  induction a as [|x a IH]; [done|].
  rewrite app_cons. simpl. rewrite IH. by destruct (Ascii.eqb c x).
Qed.

Lemma all_not_has (c : ascii) (s : string) :
  all (fun a => negb (Ascii.eqb a c)) s = negb (has c s).
Proof.
  induction s as [|a s IH]; simpl; [done|].
  rewrite IH, (Ascii.eqb_sym a c). by destruct (Ascii.eqb c a).
Qed.

Lemma length_app (a b : string) :
  String.length (a +:+ b) = String.length a + String.length b.
Proof. induction a as [|c a IH]; [done|]. rewrite app_cons. simpl. by rewrite IH. Qed.

Lemma substring_full (s : string) : String.substring 0 (String.length s) s = s.
Proof. induction s as [|c s IH]; simpl; [done|]. by rewrite IH. Qed.

Lemma substring_skip (pre s : string) (m : nat) :
  String.substring (String.length pre) m (pre +:+ s) = String.substring 0 m s.
Proof. induction pre as [|c pre IH]; [done|]. rewrite app_cons. simpl. done. Qed.

Lemma slice_suffix (pre s : string) (b : nat) :
  b = String.length pre →
  slice b (b + String.length s) (pre +:+ s) = s.
Proof.
  intros ->. unfold slice.
  replace (String.length pre + String.length s - String.length pre)
    with (String.length s) by lia.
  by rewrite substring_skip, substring_full.
Qed.

Lemma strip_Some (p s rest : string) : strip p s = Some rest ↔ s = p +:+ rest.
Proof.
  revert s. induction p as [|a p IH]; intros s.
  - rewrite app_nil. simpl. split; congruence.
  - rewrite app_cons. simpl. destruct s as [|b s]; [split; discriminate|].
    destruct (Ascii.eqb_spec a b) as [->|Hne].
    + rewrite IH. split; congruence.
    + split; [discriminate|]. intros [=]. done.
Qed.

Lemma strip_app (p rest : string) : strip p (p +:+ rest) = Some rest.
Proof. by apply strip_Some. Qed.

Lemma accepts_digit (c : ascii) : accepts digit c = has c "0123456789".
Proof. destruct c as [[] [] [] [] [] [] [] []]; reflexivity. Qed.

Lemma digits_accepted (s : string) : digits s → all (accepts digit) s = true.
Proof. intros [_ H]. etrans; [|exact H]. apply all_ext, accepts_digit. Qed.

(** ** The matcher *)

(** When the rest of the expression only matches at the end of the text, a
    greedy class matches exactly when it reaches the end. *)
Lemma greedy_anchored (cs : charset) (k : nat -> string -> option outcome) :
  (∀ p c s, k p (String c s) = None) →
  ∀ s pos,
    greedy cs k pos s
    = if all (accepts cs) s then k (pos + String.length s) "" else None.
Proof.
  intros Hk. induction s as [|a s IH]; intros pos; simpl.
  - by rewrite Nat.add_0_r.
  - destruct (accepts cs a); simpl; [|apply Hk].
    rewrite IH. destruct (all (accepts cs) s); [|apply Hk].
    replace (pos + S (String.length s)) with (S pos + String.length s) by lia.
    by destruct (k _ _).
Qed.

Lemma run_logRexp (g : group) (pos : nat) (s : string) :
  run logRexp g pos s
  = match s with
    | String c rest =>
        if Ascii.eqb "." c && negb (String.eqb rest "") && all (accepts digit) rest
        then let stop := pos + String.length s in
             Some (stop, (Some (S pos), Some stop))
        else None
    | EmptyString => None
    end.
Proof.
  destruct s as [|c rest]; [done|].
  unfold logRexp. cbn [run accepts]. destruct (Ascii.eqb "." c); [|done].
  destruct rest as [|d rest]; [done|].
  change (String.eqb (String d rest) "") with false.
  cbn [negb andb all]. destruct (accepts digit d); [|done].
  rewrite greedy_anchored by done.
  cbn [andb]. destruct (all (accepts digit) rest); [|done].
  simpl. repeat f_equal; lia.
Qed.

Lemma search_logRexp_found (pre ds : string) (pos : nat) :
  ds ≠ "" → all (accepts digit) ds = true →
  search logRexp pos (pre +:+ String "." ds)
  = let start := pos + String.length pre in
    let stop := start + S (String.length ds) in
    Some (start, (stop, (Some (S start), Some stop))).
Proof.
  intros Hne Hall. revert pos. induction pre as [|c pre IH]; intros pos.
  - rewrite app_nil. unfold search; fold search. rewrite run_logRexp.
    apply String.eqb_neq in Hne. rewrite Hne, Hall. simpl.
    rewrite Nat.add_0_r. done.
  - rewrite app_cons. unfold search; fold search. rewrite run_logRexp.
    rewrite all_app. cbn [all]. rewrite accepts_digit. simpl has.
    rewrite !andb_false_r. rewrite IH. simpl.
    repeat f_equal; lia.
Qed.

Lemma search_logRexp_sound (s : string) (pos : nat) (r : nat * outcome) :
  search logRexp pos s = Some r →
  ∃ pre ds, s = pre +:+ String "." ds ∧ ds ≠ "" ∧ all (accepts digit) ds = true.
Proof.
  revert pos. induction s as [|c s IH]; intros pos.
  - unfold search. rewrite run_logRexp. done.
  - unfold search; fold search. rewrite run_logRexp.
    destruct (Ascii.eqb_spec "." c) as [<-|_]; simpl andb.
    + destruct (String.eqb_spec s "") as [->|Hne]; simpl andb.
      * unfold search. rewrite run_logRexp. done.
      * destruct (all (accepts digit) s) eqn:Hall.
        -- intros _. by exists "", s.
        -- intros (pre & ds & -> & ? & ?)%IH. by exists (String "." pre), ds.
    + intros (pre & ds & -> & ? & ?)%IH. by exists (String c pre), ds.
Qed.

Lemma Find_logRexp_found (pre ds : string) :
  digits ds → Find logRexp (pre +:+ "." +:+ ds) = Some (String "." ds).
Proof.
  intros Hd. pose proof (digits_accepted _ Hd) as Hall. destruct Hd as [Hne _].
  unfold Find. change ("." +:+ ds) with (String "." ds).
  rewrite search_logRexp_found by done. cbn zeta. f_equal.
  exact (slice_suffix pre (String "." ds) (String.length pre) eq_refl).
Qed.

Lemma Find_logRexp_none (data : string) :
  (∀ pre ds, digits ds → data ≠ pre +:+ "." +:+ ds) → Find logRexp data = None.
Proof.
  intros Hno. unfold Find.
  destruct (search logRexp 0 data) as [r|] eqn:Hs; [|done].
  apply search_logRexp_sound in Hs as (pre & ds & -> & Hne & Hall).
  exfalso. apply (Hno pre ds); [|done].
  split; [done|]. etrans; [|exact Hall].
  apply all_ext. intros c. symmetry. apply accepts_digit.
Qed.

Lemma dotted_neq (pre ds s : string) :
  has "." s = false → pre +:+ "." +:+ ds ≠ s.
Proof.
  intros Hs E. apply (f_equal (has ".")) in E.
  rewrite has_app, Hs in E. change ("." +:+ ds) with (String "." ds) in E.
  simpl in E. by rewrite orb_true_r in E.
Qed.

(** ** StatusParser *)

(** C1.  [parseStatus] is a function from texts to texts with no error
    result, and it follows four rules: "Yes" gives "1"; "No" gives "0"; a
    text that ends in a dot followed by one or more digits gives the digits
    after that dot; every other text is returned as it is. *)
Theorem parseStatus_rules :
  parseStatus "Yes" = "1"
  ∧ parseStatus "No" = "0"
  ∧ (∀ pre ds, digits ds → parseStatus (pre +:+ "." +:+ ds) = ds)
  ∧ (∀ data,
       data ≠ "Yes" → data ≠ "No" →
       (∀ pre ds, digits ds → data ≠ pre +:+ "." +:+ ds) →
       parseStatus data = data)
  ∧ parseStatus "1234.567" = "567"
  ∧ parseStatus "master-bin.000123" = "000123".
Proof.
  split; [reflexivity|]. split; [reflexivity|].
  split; [|split; [|split; reflexivity]].
  - intros pre ds Hd. unfold parseStatus.
    rewrite Find_logRexp_found by done.
    assert (String.eqb (pre +:+ "." +:+ ds) "Yes" = false) as ->
      by by apply String.eqb_neq, dotted_neq.
    assert (String.eqb (pre +:+ "." +:+ ds) "No" = false) as ->
      by by apply String.eqb_neq, dotted_neq.
    destruct Hd as [Hne _]. destruct ds as [|d ds]; done.
  - intros data Hyes Hno Hform. unfold parseStatus.
    rewrite Find_logRexp_none by done.
    apply String.eqb_neq in Hyes, Hno. by rewrite Hyes, Hno.
Qed.

Lemma parseStatus_rules_witness :
  parseStatus ("1234" +:+ "." +:+ "567") = "567"
  ∧ parseStatus "some text" = "some text".
Proof.
  destruct parseStatus_rules as (_ & _ & Hdot & Hother & _). split.
  - apply Hdot. split; [done|reflexivity].
  - apply Hother; [done|done|].
    intros pre ds _ E. symmetry in E. by apply dotted_neq in E.
Defined.

(** ** MetricClassifier *)

Lemma run_lit (p : string) (re : regex) (g : group) (pos : nat) (s : string) :
  run (lit p ++ re) g pos s
  = match strip p s with
    | Some rest => run re g (pos + String.length p) rest
    | None => None
    end.
Proof.
  revert pos s. induction p as [|a p IH]; intros pos s.
  - simpl. by rewrite Nat.add_0_r.
  - change (lit (String a p) ++ re) with (NChar (CLit a) :: (lit p ++ re)).
    cbn [run accepts strip]. destruct s as [|b s]; [done|].
    destruct (Ascii.eqb a b); [|done].
    rewrite IH. simpl String.length.
    by replace (S pos + String.length p) with (pos + S (String.length p)) by lia.
Qed.

Lemma run_group_to_end (g : group) (pos : nat) (s : string) :
  run [NOpen; NStar CAnyNotNL; NClose; NEnd] g pos s
  = if has newline s then None
    else let stop := pos + String.length s in Some (stop, (Some pos, Some stop)).
Proof.
  cbn [run]. rewrite greedy_anchored by done.
  change (accepts CAnyNotNL) with (fun a => negb (Ascii.eqb a newline)).
  rewrite all_not_has. by destruct (has newline s).
Qed.

Lemma search_begin_later (re : regex) (pos : nat) (s : string) :
  search (NBegin :: re) (S pos) s = None.
Proof. revert pos. induction s as [|c s IH]; intros pos; simpl; [done|apply IH]. Qed.

Lemma search_prefixRegex (p s : string) :
  search (prefixRegex p) 0 s
  = match strip p s with
    | Some rest =>
        if has newline rest then None
        else Some (0, (String.length s, (Some (String.length p), Some (String.length s))))
    | None => None
    end.
Proof.
  assert (run (prefixRegex p) (None, None) 0 s
          = match strip p s with
            | Some rest =>
                if has newline rest then None
                else Some (String.length s, (Some (String.length p), Some (String.length s)))
            | None => None
            end) as Hrun.
  { unfold prefixRegex. cbn [run Nat.eqb]. rewrite run_lit.
    destruct (strip p s) as [rest|] eqn:Hs; [|done].
    rewrite run_group_to_end. destruct (has newline rest); [done|].
    apply strip_Some in Hs as ->. cbn zeta. by rewrite length_app. }
  destruct s as [|c s]; unfold search; fold search; rewrite Hrun.
  - by destruct (strip p "") as [rest|]; [destruct (has newline rest)|].
  - unfold prefixRegex. rewrite search_begin_later.
    by destruct (strip p _) as [rest|]; [destruct (has newline rest)|].
Qed.

(** What [FindStringSubmatch] returns for an expression of the classifier. *)
Lemma FindStringSubmatch_prefixRegex (p s : string) :
  FindStringSubmatch (prefixRegex p) s
  = match strip p s with
    | Some rest => if has newline rest then [] else [s; rest]
    | None => []
    end.
Proof.
  unfold FindStringSubmatch. rewrite search_prefixRegex.
  destruct (strip p s) as [rest|] eqn:Hs; [|done].
  destruct (has newline rest); [done|].
  apply strip_Some in Hs as ->. f_equal; [|f_equal].
  - unfold slice. by rewrite Nat.sub_0_r, substring_full.
  - rewrite length_app. by apply slice_suffix.
Qed.

Lemma strip_first (a : ascii) (p s rest : string) :
  strip (String a p) s = Some rest → ∃ t, s = String a t ∧ strip p t = Some rest.
Proof.
  simpl. destruct s as [|b s]; [done|].
  destruct (Ascii.eqb_spec a b) as [->|]; [|done]. eauto.
Qed.

Lemma strip_has (c : ascii) (p s rest : string) :
  has c p = false → strip p s = Some rest → has c s = has c rest.
Proof. intros Hp ->%strip_Some. by rewrite has_app, Hp. Qed.

(** The four prefixes exclude one another. *)
Lemma prefixes_disjoint (name : string) :
  let hit p := is_Some (strip p name) in
  ¬ (hit "com_" ∧ hit "connection_errors_")
  ∧ ¬ (hit "com_" ∧ hit "innodb_rows_")
  ∧ ¬ (hit "com_" ∧ hit "performance_schema_")
  ∧ ¬ (hit "connection_errors_" ∧ hit "innodb_rows_")
  ∧ ¬ (hit "connection_errors_" ∧ hit "performance_schema_")
  ∧ ¬ (hit "innodb_rows_" ∧ hit "performance_schema_").
Proof.
  cbn zeta. repeat split; intros [[r1 H1] [r2 H2]];
    repeat (apply strip_first in H1 as (? & -> & H1); cbn in H2); done.
Qed.

(** [classify] against the classifier by prefixes: they agree on every name
    without a line feed, and no expression matches a name that has one. *)
Lemma classify_by_prefix_or_newline (name : string) :
  classify name
  = if has newline name then (Generic, name) else classify_by_prefix name.
Proof.
  unfold classify, classify_by_prefix,
    comRegex, connectionErrorRegex, innodbRowRegex, performanceSchemaRegex.
  rewrite !FindStringSubmatch_prefixRegex.
  pose proof (prefixes_disjoint name) as (D1 & D2 & D3 & D4 & D5 & D6).
  cbn zeta in *.
  destruct (strip "com_" name) as [r1|] eqn:H1;
    destruct (strip "connection_errors_" name) as [r2|] eqn:H2;
    destruct (strip "innodb_rows_" name) as [r3|] eqn:H3;
    destruct (strip "performance_schema_" name) as [r4|] eqn:H4;
    try (exfalso;
         solve [apply D1; eauto|apply D2; eauto|apply D3; eauto
               |apply D4; eauto|apply D5; eauto|apply D6; eauto]);
    repeat match goal with
           | H : strip ?p name = Some ?r |- _ =>
               rewrite (strip_has newline p name r eq_refl H); clear H
           end;
    cbn -[newline has];
    repeat match goal with |- context [has newline ?r] => destruct (has newline r) end;
    reflexivity.
Qed.

(** C2, as amended.  For a lower-cased name without a line feed the
    classifier behaves as the four prefixes com_, connection_errors_,
    innodb_rows_, performance_schema_ tried in order: the prefix the name
    starts with gives the family and the rest of the name is the label, the
    empty label included; a name with none of the prefixes goes to the
    generic family under its full name.  A name with a line feed is matched
    by no expression and is generic.  No name is matched by two of the four
    expressions. *)
Theorem classify_rules :
  (∀ name,
     classify name
     = if has newline name then (Generic, name) else classify_by_prefix name)
  ∧ (∀ label,
       has newline label = false →
       classify ("com_" +:+ label) = (Commands, label)
       ∧ classify ("connection_errors_" +:+ label) = (ConnectionErrors, label)
       ∧ classify ("innodb_rows_" +:+ label) = (InnodbRows, label)
       ∧ classify ("performance_schema_" +:+ label) = (PerformanceSchema, label))
  ∧ (∀ name,
       strip "com_" name = None → strip "connection_errors_" name = None →
       strip "innodb_rows_" name = None → strip "performance_schema_" name = None →
       classify name = (Generic, name))
  ∧ (∀ name r1 r2,
       r1 ∈ patterns → r2 ∈ patterns →
       FindStringSubmatch r1 name ≠ [] → FindStringSubmatch r2 name ≠ [] →
       r1 = r2)
  ∧ classify "com_" = (Commands, "")
  ∧ classify "com_select" = (Commands, "select")
  ∧ classify "innodb_rows_deleted" = (InnodbRows, "deleted")
  ∧ classify "threads_connected" = (Generic, "threads_connected").
Proof.
  split; [exact classify_by_prefix_or_newline|].
  split; [|split; [|split; [|repeat split; reflexivity]]].
  - intros label Hnl.
    repeat split; rewrite classify_by_prefix_or_newline, has_app, Hnl; reflexivity.
  - intros name H1 H2 H3 H4. rewrite classify_by_prefix_or_newline.
    unfold classify_by_prefix. rewrite H1, H2, H3, H4.
    by destruct (has newline name).
  - intros name r1 r2 Hr1 Hr2 M1 M2.
    pose proof (prefixes_disjoint name) as (D1 & D2 & D3 & D4 & D5 & D6).
    cbn zeta in *.
    assert (∀ p, FindStringSubmatch (prefixRegex p) name ≠ [] → is_Some (strip p name))
      as Hhit.
    { intros p. rewrite FindStringSubmatch_prefixRegex.
      destruct (strip p name); [eauto|done]. }
    unfold patterns in Hr1, Hr2.
    rewrite !elem_of_cons, elem_of_nil in Hr1, Hr2.
    destruct Hr1 as [->|[->|[->|[->|[]]]]]; destruct Hr2 as [->|[->|[->|[->|[]]]]];
      try reflexivity; apply Hhit in M1, M2; exfalso;
      first [by apply D1|by apply D2|by apply D3|by apply D4|by apply D5|by apply D6].
Qed.

Lemma classify_rules_witness :
  has newline "select" = false
  ∧ classify ("com_" +:+ "select") = (Commands, "select").
Proof.
  split; [reflexivity|].
  exact (proj1 (proj1 (proj2 classify_rules) "select" eq_refl)).
Defined.

(** C2, as stated, fails on a name that has a line feed after the prefix:
    the name starts with com_, and it is classified as generic. *)
Lemma classify_newline_counterexample :
  let name := "com_" +:+ String newline "" in
  strip "com_" name = Some (String newline "")
  ∧ classify_by_prefix name = (Commands, String newline "")
  ∧ classify name = (Generic, name).
Proof. repeat split; reflexivity. Qed.

(** ** The registry of generic metrics *)

Lemma wf_start (dsn : string) : wf (start dsn).
Proof.
  split; [|split]; simpl.
  - intros n h. by rewrite lookup_empty.
  - intros n1 n2 h. by rewrite lookup_empty.
  - intros h. rewrite lookup_empty. by intros [? ?].
Qed.

Lemma setGenericMetric_new (name : string) (value : float) (σ : State) :
  metrics (ex σ) !! name = None →
  setGenericMetric name value σ
  = {| ex := with_metrics (<[name := next σ]> (metrics (ex σ))) (ex σ);
       heap := <[next σ := mkUntyped (BuildFQName namespace name) value]> (heap σ);
       next := S (next σ) |}.
Proof.
  intros Hnone. unfold setGenericMetric. rewrite Hnone. fields.
  rewrite lookup_insert_eq. f_equal.
  by rewrite alter_insert_eq.
Qed.

Lemma setGenericMetric_old (name : string) (value : float) (σ : State) (h : loc) :
  metrics (ex σ) !! name = Some h →
  setGenericMetric name value σ
  = {| ex := ex σ; heap := alter (Set_ value) h (heap σ); next := next σ |}.
Proof. intros Hsome. unfold setGenericMetric. by rewrite Hsome, Hsome. Qed.

Lemma setGenericMetric_handle_kept (name n : string) (value : float) (σ : State) (h : loc) :
  metrics (ex σ) !! n = Some h →
  metrics (ex (setGenericMetric name value σ)) !! n = Some h.
Proof.
  intros Hn. destruct (metrics (ex σ) !! name) as [h'|] eqn:Hname.
  - by rewrite (setGenericMetric_old _ _ _ h').
  - rewrite setGenericMetric_new by done. fields.
    rewrite lookup_insert_ne; [done|]. intros ->. congruence.
Qed.

Lemma setGenericMetric_other_name (name n : string) (value : float) (σ : State) :
  n ≠ name →
  metrics (ex (setGenericMetric name value σ)) !! n = metrics (ex σ) !! n.
Proof.
  intros Hne. destruct (metrics (ex σ) !! name) as [h'|] eqn:Hname.
  - by rewrite (setGenericMetric_old _ _ _ h').
  - rewrite setGenericMetric_new by done. simpl. by rewrite lookup_insert_ne.
Qed.

Lemma setGenericMetric_other_object (name n : string) (value : float) (σ : State) (h : loc) :
  wf σ → n ≠ name → metrics (ex σ) !! n = Some h →
  heap (setGenericMetric name value σ) !! h = heap σ !! h.
Proof.
  intros (Halloc & Hinj & _) Hne Hn.
  destruct (metrics (ex σ) !! name) as [h'|] eqn:Hname.
  - rewrite (setGenericMetric_old _ _ _ h') by done. fields.
    rewrite lookup_alter_ne; [done|]. intros ->. by apply Hne, (Hinj _ _ h).
  - rewrite setGenericMetric_new by done. fields.
    rewrite lookup_insert_ne; [done|]. apply Halloc in Hn as [Hlt _]. lia.
Qed.

Lemma setGenericMetric_stored (name : string) (value : float) (σ : State) :
  wf σ →
  ∃ h, metrics (ex (setGenericMetric name value σ)) !! name = Some h
       ∧ heap (setGenericMetric name value σ) !! h
         = Some (mkUntyped (BuildFQName namespace name) value).
Proof.
  intros (Halloc & _). destruct (metrics (ex σ) !! name) as [h|] eqn:Hname.
  - exists h. rewrite (setGenericMetric_old _ _ _ h) by done. fields.
    split; [done|]. apply Halloc in Hname as (_ & m & Hm & Hfq).
    rewrite lookup_alter_eq, Hm. simpl. unfold Set_. by rewrite Hfq.
  - exists (next σ). rewrite setGenericMetric_new by done. fields.
    by rewrite !lookup_insert_eq.
Qed.

Lemma wf_setGenericMetric (name : string) (value : float) (σ : State) :
  wf σ → wf (setGenericMetric name value σ).
Proof.
  intros (Halloc & Hinj & Hbelow).
  destruct (metrics (ex σ) !! name) as [h|] eqn:Hname.
  - rewrite (setGenericMetric_old _ _ _ h) by done. split; [|split]; fields; [|done|].
    + intros n h' Hn. destruct (Halloc _ _ Hn) as (Hlt & m & Hm & Hfq).
      split; [done|]. destruct (decide (h = h')) as [->|Hne].
      * exists (Set_ value m). by rewrite lookup_alter_eq, Hm.
      * exists m. by rewrite lookup_alter_ne.
    + intros h'. rewrite lookup_alter_is_Some. apply Hbelow.
  - rewrite setGenericMetric_new by done. split; [|split]; fields.
    + intros n h' Hn. destruct (decide (name = n)) as [<-|Hne].
      * rewrite lookup_insert_eq in Hn. injection Hn as <-.
        split; [lia|]. eexists. by rewrite lookup_insert_eq.
      * rewrite lookup_insert_ne in Hn by done.
        destruct (Halloc _ _ Hn) as (Hlt & m & Hm & Hfq).
        split; [lia|]. exists m. rewrite lookup_insert_ne by lia. done.
    + intros n1 n2 h'. destruct (decide (name = n1)) as [<-|Hne1];
        destruct (decide (name = n2)) as [<-|Hne2]; [done|..].
      * rewrite lookup_insert_eq, lookup_insert_ne by done.
        intros [= <-] Hn%Halloc. lia.
      * rewrite lookup_insert_eq, lookup_insert_ne by done.
        intros Hn%Halloc [= <-]. lia.
      * rewrite !lookup_insert_ne by done. apply Hinj.
    + intros h'. destruct (decide (next σ = h')) as [<-|Hne]; [lia|].
      rewrite lookup_insert_ne by done. intros ?%Hbelow. lia.
Qed.

Lemma setGenericMetric_calls_keep_handle (calls : list (string * float))
    (n : string) (h : loc) (σ : State) :
  metrics (ex σ) !! n = Some h →
  metrics (ex (foldl (fun σ c => setGenericMetric (fst c) (snd c) σ) σ calls)) !! n
  = Some h.
Proof.
  revert σ. induction calls as [|c calls IH]; intros σ Hn; simpl; [done|].
  by apply IH, setGenericMetric_handle_kept.
Qed.

(** C3.  The first [setGenericMetric] for a name allocates a metric object
    and stores its handle under the name; a call for a name that has a
    handle allocates nothing and leaves the map as it is; so after a second
    call the name has the handle it had after the first, no object was
    added, and that object holds the new value.  Whatever calls follow, the
    name keeps that handle. *)
Theorem setGenericMetric_idempotent (name : string) (v1 v2 : float) (σ : State) :
  wf σ →
  let σ1 := setGenericMetric name v1 σ in
  let σ2 := setGenericMetric name v2 σ1 in
  ∃ h,
    metrics (ex σ1) !! name = Some h
    ∧ heap σ1 !! h = Some (mkUntyped (BuildFQName namespace name) v1)
    ∧ (metrics (ex σ) !! name = None →
         h = next σ ∧ heap σ !! h = None ∧ next σ1 = S (next σ))
    ∧ (∀ h0, metrics (ex σ) !! name = Some h0 →
         h = h0 ∧ metrics (ex σ1) = metrics (ex σ) ∧ next σ1 = next σ)
    ∧ metrics (ex σ2) = metrics (ex σ1)
    ∧ next σ2 = next σ1
    ∧ heap σ2 = <[h := mkUntyped (BuildFQName namespace name) v2]> (heap σ1)
    ∧ ∀ calls,
        metrics (ex (foldl (fun σ c => setGenericMetric (fst c) (snd c) σ) σ2 calls))
          !! name = Some h.
Proof.
  intros Hwf σ1 σ2.
  destruct (setGenericMetric_stored name v1 σ Hwf) as (h & Hh & Hobj).
  fold σ1 in Hh, Hobj. exists h.
  assert (σ2 = {| ex := ex σ1; heap := alter (Set_ v2) h (heap σ1); next := next σ1 |})
    as Hσ2 by by apply setGenericMetric_old.
  split; [done|]. split; [done|]. split; [|split]; [| |rewrite Hσ2; fields].
  - intros Hnone. subst σ1. rewrite setGenericMetric_new in * by done. fields.
    rewrite lookup_insert_eq in Hh. injection Hh as <-.
    split; [done|]. split; [|done].
    destruct (heap σ !! next σ) as [m|] eqn:Hm; [|done]. exfalso.
    destruct Hwf as (_ & _ & Hbelow). specialize (Hbelow (next σ)).
    rewrite Hm in Hbelow. specialize (Hbelow (mk_is_Some _ _ eq_refl)). lia.
  - intros h0 Hsome. subst σ1. rewrite (setGenericMetric_old _ _ _ h0) in * by done.
    fields. split; [congruence|done].
  - split; [done|]. split; [done|]. split.
    + apply map_eq. intros k. destruct (decide (h = k)) as [<-|Hne].
      * by rewrite lookup_alter_eq, Hobj, lookup_insert_eq.
      * by rewrite lookup_alter_ne, lookup_insert_ne.
    + intros calls. by apply setGenericMetric_calls_keep_handle.
Qed.

Lemma setGenericMetric_idempotent_witness :
  wf (start "dsn")
  ∧ ∃ h,
      metrics (ex (setGenericMetric "threads_connected" 5 (start "dsn")))
        !! "threads_connected" = Some h
      ∧ metrics (ex (setGenericMetric "threads_connected" 7
                       (setGenericMetric "threads_connected" 5 (start "dsn"))))
        !! "threads_connected" = Some h
      ∧ stored <$> heap (setGenericMetric "threads_connected" 7
                           (setGenericMetric "threads_connected" 5 (start "dsn"))) !! h
        = Some 7%float.
Proof.
  split; [apply wf_start|].
  destruct (setGenericMetric_idempotent "threads_connected" 5 7 (start "dsn")
              (wf_start "dsn")) as (h & H1 & _ & _ & _ & Hmap & _ & Hheap & _).
  exists h. split; [exact H1|]. split.
  - rewrite Hmap. exact H1.
  - rewrite Hheap, lookup_insert_eq. reflexivity.
Defined.

(** C10.  [setGenericMetric name value] leaves every other name of the
    registry with its handle and the object behind that handle with its
    value, adds no other name, and leaves the four labelled families and the
    duration, error and total-scrapes metrics as they were. *)
Theorem setGenericMetric_frame (name : string) (value : float) (σ : State) :
  wf σ →
  let σ' := setGenericMetric name value σ in
  (∀ other, other ≠ name →
     metrics (ex σ') !! other = metrics (ex σ) !! other
     ∧ ∀ h, metrics (ex σ) !! other = Some h → heap σ' !! h = heap σ !! h)
  ∧ commands (ex σ') = commands (ex σ)
  ∧ connectionErrors (ex σ') = connectionErrors (ex σ)
  ∧ innodbRows (ex σ') = innodbRows (ex σ)
  ∧ performanceSchema (ex σ') = performanceSchema (ex σ)
  ∧ duration (ex σ') = duration (ex σ)
  ∧ error (ex σ') = error (ex σ)
  ∧ totalScrapes (ex σ') = totalScrapes (ex σ).
Proof.
  intros Hwf σ'. split.
  - intros other Hne. split.
    + by apply setGenericMetric_other_name.
    + intros h Hh. by apply (setGenericMetric_other_object name other).
  - subst σ'. destruct (metrics (ex σ) !! name) as [h|] eqn:Hname.
    + by rewrite (setGenericMetric_old _ _ _ h).
    + by rewrite setGenericMetric_new.
Qed.

Lemma setGenericMetric_frame_witness :
  let σ := setGenericMetric "uptime" 60 (start "dsn") in
  let σ' := setGenericMetric "threads_connected" 5 σ in
  metrics (ex σ') !! "uptime" = Some 0
  ∧ stored <$> heap σ' !! 0 = Some 60%float
  ∧ error (ex σ') = error (ex σ).
Proof.
  intros σ σ'.
  assert (wf σ) as Hwf by apply wf_setGenericMetric, wf_start.
  destruct (setGenericMetric_frame "threads_connected" 5 σ Hwf)
    as (Hother & _ & _ & _ & _ & _ & Herr & _).
  destruct (Hother "uptime") as [Hmap Hheap]; [done|].
  fold σ' in Hmap, Hheap, Herr.
  split; [rewrite Hmap; reflexivity|]. split; [|exact Herr].
  rewrite (Hheap 0); reflexivity.
Defined.

(** ** scrape *)

Lemma scrape_rows (db : DB) (e : Exporter) : snd (scrape db e) = rowsSent db.
Proof.
  unfold rowsSent, scrape.
  repeat match goal with
         | |- context [match ?x with _ => _ end] => destruct x
         end; reflexivity.
Qed.

(** [scrape] writes the three process metrics and nothing else. *)
Lemma scrape_maps (db : DB) (e : Exporter) :
  let e' := fst (scrape db e) in
  dsn e' = dsn e ∧ metrics e' = metrics e ∧ commands e' = commands e
  ∧ connectionErrors e' = connectionErrors e ∧ innodbRows e' = innodbRows e
  ∧ performanceSchema e' = performanceSchema e.
Proof.
  unfold scrape.
  repeat match goal with
         | |- context [match ?x with _ => _ end] => destruct x
         end; done.
Qed.

Lemma scanGlobalStatus_delivered (rows : list (string * string)) :
  scanGlobalStatus (delivered rows) = (rows, true).
Proof.
  induction rows as [|[key val] rows IH]; [done|].
  unfold delivered in *. cbn [fmap list_fmap scanGlobalStatus Scan length Nat.eqb fst snd].
  by rewrite IH.
Qed.

Lemma scanGlobalStatus_error (pre : list (string * string)) (rest : list Row) :
  scanGlobalStatus (delivered pre ++ Err :: rest) = (pre, false).
Proof.
  induction pre as [|[key val] pre IH]; [done|].
  unfold delivered in *.
  cbn [fmap list_fmap app scanGlobalStatus Scan length Nat.eqb fst snd].
  by rewrite IH.
Qed.

(** C5.  [scrape] returns for every behaviour of the database; it adds one
    to the total-scrapes counter whatever happens; and when opening the
    connection or the first query fails it sets the error gauge to 1 and the
    duration gauge to the time elapsed, having sent no row. *)
Theorem scrape_counts_every_invocation (db : DB) (e : Exporter) :
  ∃ e' rows,
    scrape db e = (e', rows)
    ∧ totalScrapes e' = (totalScrapes e + 1)%float
    ∧ (open db = Err ∨ globalStatus db = Err →
       error e' = 1%float ∧ duration e' = elapsed db ∧ rows = []).
Proof.
  exists (fst (scrape db e)), (snd (scrape db e)).
  split; [by destruct (scrape db e)|]. split.
  - unfold scrape.
    repeat match goal with
           | |- context [match ?x with _ => _ end] => destruct x
           end; done.
  - unfold scrape. intros [Hopen|Hquery].
    + by rewrite Hopen.
    + rewrite Hquery. by destruct (open db).
Qed.

Lemma scrape_counts_every_invocation_witness :
  let db := mkDB Err (Ok []) Err 1000 2500001000 in
  open db = Err
  ∧ totalScrapes (fst (scrape db (NewMySQLExporter "dsn"))) = 1%float
  ∧ error (fst (scrape db (NewMySQLExporter "dsn"))) = 1%float
  ∧ duration (fst (scrape db (NewMySQLExporter "dsn"))) = 2.5%float.
Proof.
  intros db. split; [reflexivity|].
  destruct (scrape_counts_every_invocation db (NewMySQLExporter "dsn"))
    as (e' & rows & Hrun & Htotal & Hfail).
  destruct (Hfail (or_introl eq_refl)) as (Herr & Hdur & _).
  rewrite Hrun. cbn [fst].
  split; [rewrite Htotal; reflexivity|]. split; [exact Herr|].
  rewrite Hdur. vm_compute. reflexivity.
Defined.

(** C6, at the first query.  When [Scan] fails on a row of the global
    status, [scrape] returns at once: the rows before it were sent and the
    rest is abandoned, but neither the error gauge nor the duration gauge is
    written: the exporter only differs by the total-scrapes counter. *)
Theorem scan_error_in_global_status_not_marked
    (pre : list (string * string)) (rest : list Row) (slave : result SlaveStatus)
    (t0 t1 : Z) (e : Exporter) :
  scrape (mkDB (Ok ()) (Ok (delivered pre ++ Err :: rest)) slave t0 t1) e
  = (with_totalScrapes (totalScrapes e + 1)%float e, pre).
Proof.
  unfold scrape. cbn [open globalStatus]. by rewrite scanGlobalStatus_error.
Qed.

(** The same error in the second loop is marked: the sibling path sets the
    error gauge to 1 and the duration. *)
Lemma scan_error_in_slave_status_marked
    (rows : list (string * string)) (cols : list string)
    (before after : list Row) (t0 t1 : Z) (e : Exporter) :
  Forall (fun row => Scan (length cols) row ≠ Err) before →
  let db := mkDB (Ok ()) (Ok (delivered rows))
              (Ok (mkSlaveStatus (Ok cols) (before ++ Err :: after))) t0 t1 in
  scrape db e
  = (finish 1 db (with_totalScrapes (totalScrapes e + 1)%float e), rows).
Proof.
  intros Hbefore db. unfold scrape. cbn [open globalStatus slaveStatus columns slaveRows db].
  rewrite scanGlobalStatus_delivered. cbn [negb].
  assert (∀ data, scanSlaveStatus (length cols) (before ++ Err :: after) data = Err) as ->;
    [|done].
  induction Hbefore as [|row before Hrow _ IH]; intros data; [done|].
  cbn [app scanSlaveStatus]. destruct (Scan (length cols) row); [apply IH|done].
Qed.

(** ** The pipeline *)

Lemma classify_generic (name key : string) :
  classify name = (Generic, key) → key = name.
Proof.
  unfold classify.
  repeat match goal with
         | |- context [if ?b then _ else _] => destruct b
         end; congruence.
Qed.

Lemma wf_with_ex (f : Exporter -> Exporter) (σ : State) :
  metrics (f (ex σ)) = metrics (ex σ) → wf σ → wf (with_ex f σ).
Proof. intros Hm. unfold wf. fields. by rewrite Hm. Qed.

Section Properties.

Context `{Library}.

Lemma setMetrics_cons (row : string * string) (rows : list (string * string)) (σ : State) :
  setMetrics (row :: rows) σ = setMetrics rows (setMetric row σ).
Proof. reflexivity. Qed.

Lemma setMetrics_app (rows1 rows2 : list (string * string)) (σ : State) :
  setMetrics (rows1 ++ rows2) σ = setMetrics rows2 (setMetrics rows1 σ).
Proof. apply foldl_app. Qed.

Lemma serve_cons (db : DB) (dbs : list DB) (σ : State) :
  serve (db :: dbs) σ = serve dbs (fst (Collect db σ)).
Proof. reflexivity. Qed.

Lemma write_process_metrics (t : Family * string) (v : float) (σ : State) :
  duration (ex (write t v σ)) = duration (ex σ)
  ∧ error (ex (write t v σ)) = error (ex σ)
  ∧ totalScrapes (ex (write t v σ)) = totalScrapes (ex σ).
Proof.
  destruct t as [[] key]; try done. cbn [write].
  destruct (metrics (ex σ) !! key) as [h|] eqn:Hkey.
  - by rewrite (setGenericMetric_old _ _ _ h).
  - by rewrite setGenericMetric_new.
Qed.

Lemma write_handle_kept (t : Family * string) (v : float) (σ : State)
    (n : string) (h : loc) :
  metrics (ex σ) !! n = Some h → metrics (ex (write t v σ)) !! n = Some h.
Proof.
  destruct t as [[] key]; try done. apply setGenericMetric_handle_kept.
Qed.

Lemma wf_write (t : Family * string) (v : float) (σ : State) :
  wf σ → wf (write t v σ).
Proof.
  destruct t as [[] key]; cbn [write];
    try (by apply wf_with_ex). apply wf_setGenericMetric.
Qed.

Lemma write_other_object (t : Family * string) (v : float) (σ : State)
    (n : string) (h : loc) :
  wf σ → t ≠ (Generic, n) → metrics (ex σ) !! n = Some h →
  heap (write t v σ) !! h = heap σ !! h.
Proof.
  intros Hwf Hne Hn. destruct t as [[] key]; try done.
  apply (setGenericMetric_other_object key n); [done| |done]. congruence.
Qed.

Lemma write_read (t : Family * string) (v : float) (σ : State) :
  wf σ → readMetric t (write t v σ) = Some v.
Proof.
  intros Hwf. destruct t as [[] key]; cbn [write readMetric]; fields;
    try apply lookup_insert_eq.
  destruct (setGenericMetric_stored key v σ Hwf) as (h & -> & ->). done.
Qed.

Lemma setMetric_process_metrics (row : string * string) (σ : State) :
  duration (ex (setMetric row σ)) = duration (ex σ)
  ∧ error (ex (setMetric row σ)) = error (ex σ)
  ∧ totalScrapes (ex (setMetric row σ)) = totalScrapes (ex σ).
Proof.
  unfold setMetric. destruct (ParseFloat _); [|done].
  apply write_process_metrics.
Qed.

Lemma setMetrics_process_metrics (rows : list (string * string)) (σ : State) :
  duration (ex (setMetrics rows σ)) = duration (ex σ)
  ∧ error (ex (setMetrics rows σ)) = error (ex σ)
  ∧ totalScrapes (ex (setMetrics rows σ)) = totalScrapes (ex σ).
Proof.
  revert σ. induction rows as [|row rows IH]; intros σ; [done|].
  rewrite setMetrics_cons.
  destruct (IH (setMetric row σ)) as (-> & -> & ->).
  apply setMetric_process_metrics.
Qed.

Lemma setMetric_handle_kept (row : string * string) (σ : State) (n : string) (h : loc) :
  metrics (ex σ) !! n = Some h → metrics (ex (setMetric row σ)) !! n = Some h.
Proof.
  unfold setMetric. destruct (ParseFloat _); [|done].
  apply write_handle_kept.
Qed.

Lemma setMetrics_handle_kept (rows : list (string * string)) (σ : State)
    (n : string) (h : loc) :
  metrics (ex σ) !! n = Some h → metrics (ex (setMetrics rows σ)) !! n = Some h.
Proof.
  revert σ. induction rows as [|row rows IH]; intros σ Hn; [done|].
  by apply IH, setMetric_handle_kept.
Qed.

Lemma wf_setMetric (row : string * string) (σ : State) : wf σ → wf (setMetric row σ).
Proof.
  unfold setMetric. destruct (ParseFloat _); [|done]. apply wf_write.
Qed.

Lemma wf_setMetrics (rows : list (string * string)) (σ : State) :
  wf σ → wf (setMetrics rows σ).
Proof.
  revert σ. induction rows as [|row rows IH]; intros σ Hwf; [done|].
  by apply IH, wf_setMetric.
Qed.

Lemma setMetric_other_object (row : string * string) (σ : State) (n : string) (h : loc) :
  wf σ → ToLower (fst row) ≠ n → metrics (ex σ) !! n = Some h →
  heap (setMetric row σ) !! h = heap σ !! h.
Proof.
  intros Hwf Hne Hn. unfold setMetric. destruct (ParseFloat _); [|done].
  apply (write_other_object _ _ _ n); [done| |done].
  intros Hc. by apply classify_generic in Hc.
Qed.

Lemma setMetrics_other_object (rows : list (string * string)) (σ : State)
    (n : string) (h : loc) :
  wf σ → Forall (fun row => ToLower (fst row) ≠ n) rows →
  metrics (ex σ) !! n = Some h →
  heap (setMetrics rows σ) !! h = heap σ !! h.
Proof.
  intros Hwf Hrows. revert σ Hwf.
  induction Hrows as [|row rows Hrow _ IH]; intros σ Hwf Hn; [done|].
  rewrite setMetrics_cons.
  rewrite IH; [|by apply wf_setMetric|by apply setMetric_handle_kept].
  by apply (setMetric_other_object _ _ n).
Qed.

Lemma Collect_state (db : DB) (σ : State) :
  fst (Collect db σ)
  = setMetrics (rowsSent db) (with_ex (fun _ => fst (scrape db (ex σ))) σ).
Proof.
  unfold Collect. rewrite <- (scrape_rows db (ex σ)).
  by destruct (scrape db (ex σ)).
Qed.

Lemma wf_scraped (db : DB) (σ : State) :
  wf σ → wf (with_ex (fun _ => fst (scrape db (ex σ))) σ).
Proof. apply wf_with_ex. apply scrape_maps. Qed.

Lemma wf_Collect (db : DB) (σ : State) : wf σ → wf (fst (Collect db σ)).
Proof. intros Hwf. rewrite Collect_state. by apply wf_setMetrics, wf_scraped. Qed.

Lemma wf_serve (dbs : list DB) (σ : State) : wf σ → wf (serve dbs σ).
Proof.
  revert σ. induction dbs as [|db dbs IH]; intros σ Hwf; [done|].
  by apply IH, wf_Collect.
Qed.

Lemma Collect_handle_kept (db : DB) (σ : State) (n : string) (h : loc) :
  metrics (ex σ) !! n = Some h → metrics (ex (fst (Collect db σ))) !! n = Some h.
Proof.
  intros Hn. rewrite Collect_state. apply setMetrics_handle_kept. fields.
  by rewrite (proj1 (proj2 (scrape_maps db (ex σ)))).
Qed.

Lemma serve_handle_kept (dbs : list DB) (σ : State) (n : string) (h : loc) :
  metrics (ex σ) !! n = Some h → metrics (ex (serve dbs σ)) !! n = Some h.
Proof.
  revert σ. induction dbs as [|db dbs IH]; intros σ Hn; [done|].
  by apply IH, Collect_handle_kept.
Qed.

Lemma Collect_other_object (db : DB) (σ : State) (n : string) (h : loc) :
  wf σ → omits n db → metrics (ex σ) !! n = Some h →
  heap (fst (Collect db σ)) !! h = heap σ !! h.
Proof.
  intros Hwf Homits Hn. rewrite Collect_state.
  rewrite (setMetrics_other_object _ _ n); [done|by apply wf_scraped|done|].
  fields. by rewrite (proj1 (proj2 (scrape_maps db (ex σ)))).
Qed.

Lemma serve_other_object (dbs : list DB) (σ : State) (n : string) (h : loc) :
  wf σ → Forall (omits n) dbs → metrics (ex σ) !! n = Some h →
  heap (serve dbs σ) !! h = heap σ !! h.
Proof.
  intros Hwf Hdbs. revert σ Hwf.
  induction Hdbs as [|db dbs Hdb _ IH]; intros σ Hwf Hn; [done|].
  rewrite serve_cons.
  rewrite IH; [|by apply wf_Collect|by apply Collect_handle_kept].
  by apply (Collect_other_object _ _ n).
Qed.

(** A handle of the registry is among the samples of [Collect]. *)
Lemma Collect_exposes (db : DB) (σ : State) (n : string) (h : loc) (m : Untyped) :
  metrics (ex (fst (Collect db σ))) !! n = Some h →
  heap (fst (Collect db σ)) !! h = Some m →
  mkSample (fqName m) [] (stored m) ∈ snd (Collect db σ).
Proof.
  unfold Collect. destruct (scrape db (ex σ)) as [e1 scrapes].
  cbn [fst snd]. intros Hn Hm.
  do 3 apply list_elem_of_further. apply elem_of_app. left.
  apply list_elem_of_omap. exists h. split.
  - unfold collectMetrics. apply list_elem_of_fmap. exists (n, h).
    split; [done|]. by apply elem_of_map_to_list.
  - unfold readUntyped. by rewrite Hm.
Qed.

Lemma setMetrics_unparsed (rows : list (string * string)) (σ : State) :
  Forall (fun row => ParseFloat (snd row) = None) rows → setMetrics rows σ = σ.
Proof.
  intros Hrows. induction Hrows as [|row rows Hrow _ IH]; [done|].
  rewrite setMetrics_cons. unfold setMetric at 1. by rewrite Hrow.
Qed.

Lemma scrape_without_slave_rows (db : DB) (rows : list (string * string))
    (cols : list string) (e : Exporter) :
  open db = Ok () → globalStatus db = Ok (delivered rows) →
  slaveStatus db = Ok (mkSlaveStatus (Ok cols) []) →
  scrape db e
  = (finish 0 db (with_totalScrapes (totalScrapes e + 1)%float e),
     rows ++ zip_with (fun col data => (col, parseStatus data)) cols
               (replicate (length cols) "")).
Proof.
  intros Hopen Hquery Hslave. unfold scrape.
  rewrite Hopen, Hquery, scanGlobalStatus_delivered, Hslave. done.
Qed.

Lemma nil_slave_data_unparsed (cols : list string) (n : nat) :
  ParseFloat "" = None →
  Forall (fun row : string * string => ParseFloat (snd row) = None)
    (zip_with (fun col data => (col, parseStatus data)) cols (replicate n "")).
Proof.
  intros Hempty. revert n. induction cols as [|col cols IH]; intros [|n]; simpl;
    constructor; [exact Hempty|apply IH].
Qed.

(** ** The collector *)

(** C4.  No sequence of collections removes a name from the registry or
    changes its handle; and a name that the registry holds and that the
    later scrapes omit keeps its object with its last value, which every
    later collection exposes. *)
Theorem generic_registry_only_grows (n : string) (h : loc) (m : Untyped)
    (σ : State) (dbs : list DB) (db : DB) :
  wf σ →
  metrics (ex σ) !! n = Some h → heap σ !! h = Some m →
  Forall (omits n) dbs → omits n db →
  (∀ dbs' n' h',
     metrics (ex σ) !! n' = Some h' → metrics (ex (serve dbs' σ)) !! n' = Some h')
  ∧ metrics (ex (serve dbs σ)) !! n = Some h
  ∧ heap (serve dbs σ) !! h = Some m
  ∧ mkSample (fqName m) [] (stored m) ∈ snd (Collect db (serve dbs σ)).
Proof.
  intros Hwf Hn Hm Hdbs Hdb.
  split; [intros dbs' n' h'; apply serve_handle_kept|].
  assert (metrics (ex (serve dbs σ)) !! n = Some h) as Hn'
    by by apply serve_handle_kept.
  assert (heap (serve dbs σ) !! h = Some m) as Hm'
    by by rewrite (serve_other_object _ _ n).
  split; [done|]. split; [done|].
  apply (Collect_exposes _ _ n h).
  - by apply Collect_handle_kept.
  - rewrite (Collect_other_object _ _ n); [done|by apply wf_serve|done|done].
Qed.

(** C7, as amended.  A row of the global status is sent with the text of
    its value as the server returned it, [parseStatus] not applied, and that
    text is parsed as a floating-point number: a numeric row writes the
    number to the metric its lower-cased name is classified to; a row that
    is not numeric leaves the whole state as it is; applying rows never
    writes the error gauge; and when the rest of the scrape succeeds the
    error gauge is 0 whatever the values were. *)
Theorem global_status_value_parsed_as_sent (db : DB)
    (rows : list (string * string)) (e : Exporter) :
  open db = Ok () → globalStatus db = Ok (delivered rows) →
  (∃ slave, snd (scrape db e) = rows ++ slave)
  ∧ (∀ key text σ,
       (key, text) ∈ rows → wf σ →
       match ParseFloat text with
       | Some v =>
           setMetric (key, text) σ = write (classify (ToLower key)) v σ
           ∧ readMetric (classify (ToLower key)) (setMetric (key, text) σ) = Some v
       | None => setMetric (key, text) σ = σ
       end)
  ∧ (∀ scrapes σ, error (ex (setMetrics scrapes σ)) = error (ex σ))
  ∧ (∀ cols σ,
       slaveStatus db = Ok (mkSlaveStatus (Ok cols) []) →
       error (ex (fst (Collect db σ))) = 0%float).
Proof.
  intros Hopen Hquery. split; [|split; [|split]].
  - unfold scrape. rewrite Hopen, Hquery, scanGlobalStatus_delivered. cbn [negb].
    repeat match goal with
           | |- context [match ?x with _ => _ end] => destruct x
           end; cbn [snd]; eauto using app_nil_r.
  - intros key text σ _ Hwf. unfold setMetric. cbn [fst snd].
    destruct (ParseFloat text) as [v|]; [|done].
    split; [done|]. by apply write_read.
  - intros scrapes σ. apply setMetrics_process_metrics.
  - intros cols σ Hslave. rewrite Collect_state.
    rewrite (proj1 (proj2 (setMetrics_process_metrics _ _))). fields.
    by rewrite (scrape_without_slave_rows db rows cols).
Qed.

(** C8.  When the replication status has no row, and the empty text is not
    a number, the state after [Collect] is the state that applying the rows
    of the global status alone gives, and the error gauge is 0. *)
Theorem no_slave_rows_nothing_staged (db : DB) (rows : list (string * string))
    (cols : list string) (σ : State) :
  ParseFloat "" = None →
  open db = Ok () → globalStatus db = Ok (delivered rows) →
  slaveStatus db = Ok (mkSlaveStatus (Ok cols) []) →
  fst (Collect db σ)
  = setMetrics rows
      (with_ex (fun e => finish 0 db (with_totalScrapes (totalScrapes e + 1)%float e)) σ)
  ∧ error (ex (fst (Collect db σ))) = 0%float.
Proof.
  intros Hempty Hopen Hquery Hslave.
  assert (fst (Collect db σ)
          = setMetrics rows
              (with_ex (fun e => finish 0 db
                                   (with_totalScrapes (totalScrapes e + 1)%float e)) σ))
    as Hstate.
  { rewrite Collect_state. unfold rowsSent.
    rewrite !(scrape_without_slave_rows db rows cols) by done. cbn [fst snd].
    rewrite setMetrics_app.
    by rewrite (setMetrics_unparsed (zip_with _ _ _)) by by apply nil_slave_data_unparsed. }
  split; [done|]. rewrite Hstate.
  by rewrite (proj1 (proj2 (setMetrics_process_metrics _ _))).
Qed.

End Properties.

(** ** The properties at concrete scrapes

    The pipeline over [asciiToLower] and [parseDecimal]. *)

Existing Instance asciiLibrary.

Lemma generic_registry_only_grows_witness :
  let σ := fst (Collect dbFooBar (start "dsn")) in
  metrics (ex σ) !! "foo_bar" = Some 0
  ∧ heap σ !! 0 = Some (mkUntyped "mysql_foo_bar" 1)
  ∧ omits "foo_bar" dbThreads
  ∧ mkSample "mysql_foo_bar" [] 1
    ∈ snd (Collect dbThreads (serve [dbThreads; dbThreads] σ)).
Proof.
  intros σ.
  assert (wf σ) as Hwf by apply wf_Collect, wf_start.
  assert (metrics (ex σ) !! "foo_bar" = Some 0) as Hn by reflexivity.
  assert (heap σ !! 0 = Some (mkUntyped "mysql_foo_bar" 1)) as Hm by reflexivity.
  assert (omits "foo_bar" dbThreads) as Homits.
  { unfold omits. change (rowsSent dbThreads)
      with [("Threads_connected", "5"); ("Slave_IO_Running", "");
            ("Seconds_Behind_Master", "")].
    repeat constructor; discriminate. }
  split; [exact Hn|]. split; [exact Hm|]. split; [exact Homits|].
  refine (proj2 (proj2 (proj2
    (generic_registry_only_grows "foo_bar" 0 (mkUntyped "mysql_foo_bar" 1) σ
       [dbThreads; dbThreads] dbThreads Hwf Hn Hm _ Homits)))).
  constructor; [exact Homits|]. constructor; [exact Homits|]. constructor.
Defined.

Lemma global_status_value_parsed_as_sent_witness :
  rowsSent dbGalera
  = [("wsrep_flow_control_paused", "0.5"); ("wsrep_ready", "ON");
     ("Slave_IO_Running", ""); ("Seconds_Behind_Master", "")]
  ∧ readMetric (Generic, "wsrep_flow_control_paused")
      (setMetric ("wsrep_flow_control_paused", "0.5") (start "dsn")) = Some 0.5%float
  ∧ setMetric ("wsrep_ready", "ON") (start "dsn") = start "dsn".
Proof.
  split; [reflexivity|].
  destruct (global_status_value_parsed_as_sent dbGalera
              [("wsrep_flow_control_paused", "0.5"); ("wsrep_ready", "ON")]
              (NewMySQLExporter "dsn") eq_refl eq_refl) as (_ & Hrow & _ & _).
  split.
  - refine (proj2 (Hrow "wsrep_flow_control_paused" "0.5" (start "dsn") _ (wf_start _))).
    apply list_elem_of_here.
  - refine (Hrow "wsrep_ready" "ON" (start "dsn") _ (wf_start _)).
    apply list_elem_of_further, list_elem_of_here.
Defined.

(** C7, as stated, fails on a value of the global status that ends in a dot
    and digits: the server reports 0.5, the metric holds 0.5, and the metric
    of the canonicalized value would hold 5. *)
Lemma global_status_value_not_canonicalized :
  let row := ("wsrep_flow_control_paused", "0.5") in
  row ∈ rowsSent dbGalera
  ∧ parseStatus (snd row) = "5"
  ∧ readMetric (Generic, "wsrep_flow_control_paused")
      (fst (Collect dbGalera (start "dsn"))) = Some 0.5%float
  ∧ readMetric (Generic, "wsrep_flow_control_paused")
      (setMetric_canonical row (start "dsn")) = Some 5%float
  ∧ mkSample "mysql_wsrep_flow_control_paused" [] 0.5
    ∈ snd (Collect dbGalera (start "dsn")).
Proof.
  cbn zeta. split; [apply list_elem_of_here|].
  split; [reflexivity|]. split; [reflexivity|]. split; [reflexivity|].
  vm_compute. do 3 apply list_elem_of_further. apply list_elem_of_here.
Qed.

Lemma no_slave_rows_nothing_staged_witness :
  ParseFloat "" = None
  ∧ fst (Collect dbThreads (start "dsn"))
    = setMetric ("Threads_connected", "5")
        (with_ex (fun e => finish 0 dbThreads
                             (with_totalScrapes (totalScrapes e + 1)%float e))
           (start "dsn"))
  ∧ error (ex (fst (Collect dbThreads (start "dsn")))) = 0%float.
Proof.
  split; [reflexivity|].
  exact (no_slave_rows_nothing_staged dbThreads [("Threads_connected", "5")]
           ["Slave_IO_Running"; "Seconds_Behind_Master"] (start "dsn")
           eq_refl eq_refl eq_refl eq_refl).
Defined.

(** C6 at a concrete scrape: the second row of the global status fails to
    scan.  The row before it is applied and the row after it is not, and
    the error gauge still reads 0. *)
Example scan_error_leaves_error_gauge :
  let out := Collect dbScanError (start "dsn") in
  error (ex (fst out)) = 0%float
  ∧ duration (ex (fst out)) = 0%float
  ∧ totalScrapes (ex (fst out)) = 1%float
  ∧ readMetric (Generic, "threads_connected") (fst out) = Some 5%float
  ∧ readMetric (Generic, "uptime") (fst out) = None
  ∧ mkSample "mysql_exporter_last_scrape_error" [] 0 ∈ snd out.
Proof.
  cbn zeta. repeat split; try reflexivity.
  vm_compute. do 2 apply list_elem_of_further. apply list_elem_of_here.
Qed.

(** The end-to-end scenario of the description. *)
Example end_to_end_scenario :
  let σ := fst (Collect dbScenario (start "dsn")) in
  readMetric (Commands, "select") σ = Some 10%float
  ∧ readMetric (Generic, "threads_connected") σ = Some 5%float
  ∧ readMetric (InnodbRows, "read") σ = Some 42%float
  ∧ error (ex σ) = 0%float
  ∧ duration (ex σ) = 1.5%float.
Proof. repeat split; reflexivity. Qed.

(** * Further properties *)

(** ** parseStatus and the classifier *)

Lemma digits_no_dot (ds : string) :
  all (accepts digit) ds = true → has "." ds = false.
Proof.
  induction ds as [|d ds IH]; [done|]. cbn [all has].
  intros [Hd Hds]%andb_true_iff. rewrite (IH Hds), orb_false_r.
  destruct (Ascii.eqb_spec "." d) as [<-|]; [|done].
  by rewrite accepts_digit in Hd.
Qed.

Lemma parseStatus_no_match (data : string) :
  search logRexp 0 data = None → data ≠ "Yes" → data ≠ "No" →
  parseStatus data = data.
Proof.
  intros Hs Hyes Hno. unfold parseStatus, Find. rewrite Hs.
  apply String.eqb_neq in Hyes, Hno. by rewrite Hyes, Hno.
Qed.

Lemma parseStatus_match (pre ds : string) :
  ds ≠ "" → all (accepts digit) ds = true →
  parseStatus (pre +:+ String "." ds) = ds.
Proof.
  intros Hne Hall.
  assert (digits ds) as Hd.
  { split; [done|]. etrans; [|exact Hall].
    apply all_ext. intros c. symmetry. apply accepts_digit. }
  unfold parseStatus. change (String "." ds) with ("." +:+ ds).
  rewrite Find_logRexp_found by done.
  assert (String.eqb (pre +:+ "." +:+ ds) "Yes" = false) as ->
    by by apply String.eqb_neq, dotted_neq.
  assert (String.eqb (pre +:+ "." +:+ ds) "No" = false) as ->
    by by apply String.eqb_neq, dotted_neq.
  by destruct ds.
Qed.

Lemma parseStatus_digits (ds : string) :
  all (accepts digit) ds = true → parseStatus ds = ds.
Proof.
  intros Hall. apply parseStatus_no_match.
  - destruct (search logRexp 0 ds) as [r|] eqn:Hs; [|done].
    apply search_logRexp_sound in Hs as (pre & ds' & -> & _ & _).
    apply digits_no_dot in Hall. rewrite has_app in Hall.
    cbn in Hall. by rewrite orb_true_r in Hall.
  - by intros ->.
  - by intros ->.
Qed.

(** X1.  [parseStatus] is idempotent: what it returns it returns unchanged
    when applied again. *)
Theorem parseStatus_idempotent (data : string) :
  parseStatus (parseStatus data) = parseStatus data.
Proof.
  destruct (String.eqb_spec data "Yes") as [->|Hyes]; [reflexivity|].
  destruct (String.eqb_spec data "No") as [->|Hno]; [reflexivity|].
  destruct (search logRexp 0 data) as [r|] eqn:Hs.
  - apply search_logRexp_sound in Hs as (pre & ds & -> & Hne & Hall).
    rewrite parseStatus_match by done. by apply parseStatus_digits.
  - by rewrite !(parseStatus_no_match data Hs Hyes Hno).
Qed.

(** X2.  The family and the label of a name determine the name: it is the
    prefix of the family followed by the label (the full name for the
    generic family), so two names are never classified alike. *)
Theorem classify_round_trip (name : string) :
  prefixOf (fst (classify name)) +:+ snd (classify name) = name
  ∧ ∀ other, classify other = classify name → other = name.
Proof.
  assert (∀ n, prefixOf (fst (classify n)) +:+ snd (classify n) = n) as Hback.
  { intros n. rewrite classify_by_prefix_or_newline.
    destruct (has newline n); [done|]. unfold classify_by_prefix.
    repeat match goal with
           | |- context [match strip ?p n with _ => _ end] =>
               let H := fresh in
               destruct (strip p n) eqn:H;
               [by apply strip_Some in H|clear H]
           end.
    done. }
  split; [apply Hback|].
  intros other Heq. by rewrite <- (Hback other), Heq.
Qed.

(** ** Further properties of scrape *)

Lemma scanSlaveStatus_last (n : nat) (before : list Row) (vs data : list string) :
  Forall (fun row => Scan n row ≠ Err) before → length vs = n →
  scanSlaveStatus n (before ++ [Ok vs]) data = Ok vs.
Proof.
  intros Hbefore Hlen. revert data.
  induction Hbefore as [|row before Hrow _ IH]; intros data.
  - cbn [app scanSlaveStatus Scan]. by rewrite Hlen, Nat.eqb_refl.
  - cbn [app scanSlaveStatus]. destruct (Scan n row); [apply IH|done].
Qed.

Lemma scanSlaveStatus_bad (n : nat) (rows : list Row) (bad : Row) (data : list string) :
  bad ∈ rows → Scan n bad = Err → scanSlaveStatus n rows data = Err.
Proof.
  intros Hin Hbad. revert data.
  induction rows as [|row rows IH]; intros data; [by apply elem_of_nil in Hin|].
  cbn [scanSlaveStatus]. destruct (Scan n row) as [vs|] eqn:Hrow; [|done].
  apply IH. apply elem_of_cons in Hin as [->|Hin]; [congruence|done].
Qed.

(** X3.  When the replication status has several rows, every row is scanned
    into the same buffer: [scrape] sends one row for each column, in the
    order of the columns, with the canonicalized values of the last row of
    the result set, and reports success. *)
Theorem scrape_sends_last_slave_row (db : DB) (rows : list (string * string))
    (cols : list string) (before : list Row) (vs : list string) (e : Exporter) :
  open db = Ok () → globalStatus db = Ok (delivered rows) →
  slaveStatus db = Ok (mkSlaveStatus (Ok cols) (before ++ [Ok vs])) →
  Forall (fun row => Scan (length cols) row ≠ Err) before →
  length vs = length cols →
  scrape db e
  = (finish 0 db (with_totalScrapes (totalScrapes e + 1)%float e),
     rows ++ zip_with (fun col data => (col, parseStatus data)) cols vs).
Proof.
  intros Hopen Hquery Hslave Hbefore Hlen. unfold scrape.
  rewrite Hopen, Hquery, scanGlobalStatus_delivered, Hslave.
  cbn [negb columns slaveRows]. by rewrite scanSlaveStatus_last.
Qed.

Lemma scrape_sends_last_slave_row_witness :
  let db := mkDB (Ok ()) (Ok (delivered [("Uptime", "60")]))
              (Ok (mkSlaveStatus (Ok ["Slave_IO_Running"; "Master_Log_File"])
                     [Ok ["No"; "bin.000001"]; Ok ["Yes"; "bin.000042"]]))
              0 1000 in
  snd (scrape db (NewMySQLExporter "dsn"))
  = [("Uptime", "60"); ("Slave_IO_Running", "1"); ("Master_Log_File", "000042")]
  ∧ error (fst (scrape db (NewMySQLExporter "dsn"))) = 0%float.
Proof.
  intros db.
  rewrite (scrape_sends_last_slave_row db [("Uptime", "60")]
             ["Slave_IO_Running"; "Master_Log_File"] [Ok ["No"; "bin.000001"]]
             ["Yes"; "bin.000042"] (NewMySQLExporter "dsn")
             eq_refl eq_refl eq_refl); [| |reflexivity].
  - split; reflexivity.
  - constructor; [discriminate|constructor].
Defined.

(** X4.  When the global status was read and the replication status then
    fails (the query, the column list, or the scan of one of its rows,
    also a row that has not as many values as there are columns), [scrape]
    sets the error gauge to 1 and the duration, sends the rows of the global
    status and no row of the replication status. *)
Theorem scrape_failure_after_global_status (db : DB)
    (rows : list (string * string)) (e : Exporter) :
  open db = Ok () → globalStatus db = Ok (delivered rows) →
  slaveStatus db = Err
  ∨ (∃ srows, slaveStatus db = Ok (mkSlaveStatus Err srows))
  ∨ (∃ cols srows bad,
       slaveStatus db = Ok (mkSlaveStatus (Ok cols) srows)
       ∧ bad ∈ srows ∧ Scan (length cols) bad = Err) →
  scrape db e
  = (finish 1 db (with_totalScrapes (totalScrapes e + 1)%float e), rows).
Proof.
  intros Hopen Hquery Hfail. unfold scrape.
  rewrite Hopen, Hquery, scanGlobalStatus_delivered. cbn [negb].
  destruct Hfail as [->|[(srows & ->)|(cols & srows & bad & -> & Hin & Hbad)]];
    [done|done|].
  cbn [columns slaveRows]. by rewrite (scanSlaveStatus_bad _ _ bad).
Qed.

Lemma scrape_failure_after_global_status_witness :
  let db := mkDB (Ok ()) (Ok (delivered [("Uptime", "60")]))
              (Ok (mkSlaveStatus (Ok ["Slave_IO_Running"; "Master_Log_File"])
                     [Ok ["Yes"]]))
              0 2000000000 in
  scrape db (NewMySQLExporter "dsn")
  = (mkExporter "dsn" 2 1 1 ∅ ∅ ∅ ∅ ∅, [("Uptime", "60")]).
Proof.
  intros db.
  rewrite (scrape_failure_after_global_status db [("Uptime", "60")]
             (NewMySQLExporter "dsn") eq_refl eq_refl).
  - reflexivity.
  - right. right. exists ["Slave_IO_Running"; "Master_Log_File"], [Ok ["Yes"]], (Ok ["Yes"]).
    split; [reflexivity|]. split; [apply list_elem_of_here|reflexivity].
Defined.


(** ** Describe *)

Lemma length_omap_total {A B : Type} (f : A → option B) (l : list A) :
  Forall (fun a => is_Some (f a)) l → length (omap f l) = length l.
Proof.
  induction 1 as [|a l [b Hb] _ IH]; [done|].
  cbn [omap list_omap]. rewrite Hb. cbn. by rewrite IH.
Qed.

(** X6.  In a state that satisfies the invariant of the registry,
    [Describe] sends one descriptor for each generic metric registered and
    seven more: for the exporter just built, the seven alone. *)
Theorem Describe_length (σ : State) :
  wf σ → length (Describe σ) = size (metrics (ex σ)) + 7.
Proof.
  intros (Halloc & _). unfold Describe. rewrite List.length_app. cbn [length].
  f_equal. rewrite length_omap_total.
  - unfold collectMetrics. by rewrite length_fmap, length_map_to_list.
  - apply Forall_forall. intros h Hh. unfold collectMetrics in Hh.
    apply list_elem_of_fmap in Hh as ([n h'] & -> & Hin).
    apply elem_of_map_to_list in Hin. apply Halloc in Hin as (_ & m & Hm & _).
    unfold describeUntyped. cbn [snd]. rewrite Hm. by eexists.
Qed.

Lemma Describe_length_witness :
  length (Describe (start "dsn")) = 7
  ∧ length (Describe (setGenericMetric "uptime" 60 (start "dsn"))) = 8.
Proof.
  split.
  - exact (Describe_length (start "dsn") (wf_start "dsn")).
  - exact (Describe_length _ (wf_setGenericMetric "uptime" 60 _ (wf_start "dsn"))).
Defined.

(** ** Further properties of the pipeline *)

Lemma setGenericMetric_vectors (name : string) (value : float) (σ : State) :
  commands (ex (setGenericMetric name value σ)) = commands (ex σ)
  ∧ connectionErrors (ex (setGenericMetric name value σ)) = connectionErrors (ex σ)
  ∧ innodbRows (ex (setGenericMetric name value σ)) = innodbRows (ex σ)
  ∧ performanceSchema (ex (setGenericMetric name value σ)) = performanceSchema (ex σ).
Proof.
  destruct (metrics (ex σ) !! name) as [h|] eqn:Hname.
  - by rewrite (setGenericMetric_old _ _ _ h).
  - by rewrite setGenericMetric_new.
Qed.

Lemma scrape_totalScrapes (db : DB) (e : Exporter) :
  totalScrapes (fst (scrape db e)) = (totalScrapes e + 1)%float.
Proof.
  unfold scrape.
  repeat match goal with
         | |- context [match ?x with _ => _ end] => destruct x
         end; done.
Qed.

Section Further.

Context `{Library}.

Lemma write_other_target (t t' : Family * string) (v : float) (σ : State) :
  wf σ → t' ≠ t → readMetric t (write t' v σ) = readMetric t σ.
Proof.
  intros Hwf Hne. destruct t as [fam label], t' as [fam' label'].
  destruct (setGenericMetric_vectors label' v σ) as (Hc & He & Hi & Hp).
  destruct fam', fam; cbn [write readMetric]; fields;
    try reflexivity; try (apply lookup_insert_ne; congruence);
    try (by rewrite Hc); try (by rewrite He); try (by rewrite Hi);
    try (by rewrite Hp).
  assert (label ≠ label') as Hlabel by congruence.
  rewrite setGenericMetric_other_name by done.
  destruct (metrics (ex σ) !! label) as [h|] eqn:Hh; [|done].
  by rewrite (setGenericMetric_other_object label' label).
Qed.

Lemma setMetric_other_target (t : Family * string) (row : string * string) (σ : State) :
  wf σ →
  ParseFloat (snd row) = None ∨ classify (ToLower (fst row)) ≠ t →
  readMetric t (setMetric row σ) = readMetric t σ.
Proof.
  intros Hwf Hrow. unfold setMetric.
  destruct (ParseFloat (snd row)) as [v|]; [|done].
  destruct Hrow as [?|Hrow]; [done|]. by apply write_other_target.
Qed.

Lemma setMetrics_other_target (t : Family * string) (rows : list (string * string))
    (σ : State) :
  wf σ →
  Forall (fun row => ParseFloat (snd row) = None
                     ∨ classify (ToLower (fst row)) ≠ t) rows →
  readMetric t (setMetrics rows σ) = readMetric t σ.
Proof.
  intros Hwf Hrows. revert σ Hwf.
  induction Hrows as [|row rows Hrow _ IH]; intros σ Hwf; [done|].
  rewrite setMetrics_cons, IH by by apply wf_setMetric.
  by apply setMetric_other_target.
Qed.

Lemma setMetrics_last_write (pre post : list (string * string)) (k text : string)
    (v : float) (σ : State) :
  wf σ → ParseFloat text = Some v →
  Forall (fun row => ParseFloat (snd row) = None
                     ∨ classify (ToLower (fst row)) ≠ classify (ToLower k)) post →
  readMetric (classify (ToLower k)) (setMetrics (pre ++ (k, text) :: post) σ) = Some v.
Proof.
  intros Hwf Hparse Hpost.
  rewrite setMetrics_app, setMetrics_cons.
  assert (wf (setMetrics pre σ)) as Hwf' by by apply wf_setMetrics.
  rewrite setMetrics_other_target; [|by apply wf_setMetric|done].
  unfold setMetric. cbn [fst snd]. rewrite Hparse. by apply write_read.
Qed.

Lemma readMetric_scraped (t : Family * string) (db : DB) (σ : State) :
  readMetric t (with_ex (fun _ => fst (scrape db (ex σ))) σ) = readMetric t σ.
Proof.
  destruct (scrape_maps db (ex σ)) as (_ & Hm & Hc & He & Hi & Hp).
  cbn zeta in *.
  destruct t as [[] key]; cbn [readMetric with_ex ex heap];
    rewrite ?Hm, ?Hc, ?He, ?Hi, ?Hp; reflexivity.
Qed.

Lemma Collect_other_target (t : Family * string) (db : DB) (σ : State) :
  wf σ →
  Forall (fun row => ParseFloat (snd row) = None
                     ∨ classify (ToLower (fst row)) ≠ t) (rowsSent db) →
  readMetric t (fst (Collect db σ)) = readMetric t σ.
Proof.
  intros Hwf Hrows. rewrite Collect_state.
  rewrite setMetrics_other_target; [|by apply wf_scraped|done].
  apply readMetric_scraped.
Qed.

Lemma Collect_exposes_vector (db : DB) (σ : State) (label : string) (v : float) :
  let σ' := fst (Collect db σ) in
  (commands (ex σ') !! label = Some v →
   mkSample "mysql_commands_total" [("command", label)] v ∈ snd (Collect db σ))
  ∧ (connectionErrors (ex σ') !! label = Some v →
     mkSample "mysql_connection_errors_total" [("error", label)] v ∈ snd (Collect db σ))
  ∧ (innodbRows (ex σ') !! label = Some v →
     mkSample "mysql_innodb_rows_total" [("operation", label)] v ∈ snd (Collect db σ))
  ∧ (performanceSchema (ex σ') !! label = Some v →
     mkSample "mysql_performance_schema_total" [("instrumentation", label)] v
     ∈ snd (Collect db σ)).
Proof.
  unfold Collect. destruct (scrape db (ex σ)) as [e1 scrapes]. cbn [fst snd].
  assert (∀ name l (vec : gmap string float),
            vec !! label = Some v →
            mkSample name [(l, label)] v ∈ collectVec name l vec) as Hvec.
  { intros name l vec Hv. unfold collectVec. apply list_elem_of_fmap.
    exists (label, v). split; [done|]. by apply elem_of_map_to_list. }
  repeat split; intros Hv; do 3 apply list_elem_of_further;
    rewrite !elem_of_app; eauto 10.
Qed.

Lemma Collect_exposes_series (t : Family * string) (v : float) (db : DB) (σ : State) :
  wf σ → readMetric t (fst (Collect db σ)) = Some v →
  series t v ∈ snd (Collect db σ).
Proof.
  intros Hwf Hread.
  destruct (Collect_exposes_vector db σ (snd t) v) as (Hc & He & Hi & Hp).
  destruct t as [[] key]; cbn [readMetric series snd] in *; eauto.
  destruct (metrics (ex (fst (Collect db σ))) !! key) as [h|] eqn:Hkey; [|done].
  destruct (heap (fst (Collect db σ)) !! h) as [m|] eqn:Hm; [|done].
  injection Hread as <-.
  destruct (wf_Collect db σ Hwf) as (Halloc & _).
  destruct (Halloc _ _ Hkey) as (_ & m' & Hm' & <-).
  assert (m' = m) as -> by congruence.
  by apply (Collect_exposes db σ key h).
Qed.

Lemma serve_other_target (t : Family * string) (dbs : list DB) (σ : State) :
  wf σ →
  Forall (fun db =>
            Forall (fun row => ParseFloat (snd row) = None
                               ∨ classify (ToLower (fst row)) ≠ t) (rowsSent db)) dbs →
  readMetric t (serve dbs σ) = readMetric t σ.
Proof.
  intros Hwf Hdbs. revert σ Hwf.
  induction Hdbs as [|db dbs Hdb _ IH]; intros σ Hwf; [done|].
  rewrite serve_cons, IH by by apply wf_Collect.
  by apply Collect_other_target.
Qed.

Lemma write_keeps_series (t t' : Family * string) (v : float) (σ : State) :
  wf σ → is_Some (readMetric t σ) → is_Some (readMetric t (write t' v σ)).
Proof.
  intros Hwf Hsome. destruct (decide (t' = t)) as [->|Hne].
  - rewrite write_read by done. by eexists.
  - by rewrite write_other_target.
Qed.

Lemma setMetrics_keeps_series (t : Family * string) (rows : list (string * string))
    (σ : State) :
  wf σ → is_Some (readMetric t σ) → is_Some (readMetric t (setMetrics rows σ)).
Proof.
  revert σ. induction rows as [|row rows IH]; intros σ Hwf Hsome; [done|].
  rewrite setMetrics_cons. apply IH; [by apply wf_setMetric|].
  unfold setMetric. destruct (ParseFloat (snd row)); [|done].
  by apply write_keeps_series.
Qed.

Lemma Collect_totalScrapes (db : DB) (σ : State) :
  totalScrapes (ex (fst (Collect db σ))) = (totalScrapes (ex σ) + 1)%float.
Proof.
  rewrite Collect_state.
  rewrite (proj2 (proj2 (setMetrics_process_metrics _ _))). fields.
  apply scrape_totalScrapes.
Qed.

(** X7.  In a state that satisfies the invariant of the registry: when a
    row sent by the scrape has a numeric value, and no later row of the
    same scrape with a numeric value is classified like it, then after
    [Collect] the series of the row holds that value and [Collect] emits it.
    So of the rows whose names differ only in case the last one counts. *)
Theorem last_numeric_row_is_exposed (db : DB) (σ : State)
    (pre post : list (string * string)) (k text : string) (v : float) :
  wf σ →
  rowsSent db = pre ++ (k, text) :: post →
  ParseFloat text = Some v →
  Forall (fun row => ParseFloat (snd row) = None
                     ∨ classify (ToLower (fst row)) ≠ classify (ToLower k)) post →
  readMetric (classify (ToLower k)) (fst (Collect db σ)) = Some v
  ∧ series (classify (ToLower k)) v ∈ snd (Collect db σ).
Proof.
  intros Hwf Hrows Hparse Hpost.
  assert (readMetric (classify (ToLower k)) (fst (Collect db σ)) = Some v) as Hread.
  { rewrite Collect_state, Hrows. apply setMetrics_last_write; [|done|done].
    by apply wf_scraped. }
  split; [done|]. by apply Collect_exposes_series.
Qed.

(** X8.  In a state that satisfies the invariant of the registry: a series
    of any family, labelled or generic, that holds a value keeps it over
    every sequence of collections whose scrapes send no numeric row
    classified to it, and each such collection emits it again. *)
Theorem series_kept_when_not_written (t : Family * string) (v : float)
    (σ : State) (dbs : list DB) (db : DB) :
  wf σ → readMetric t σ = Some v →
  Forall (fun db =>
            Forall (fun row => ParseFloat (snd row) = None
                               ∨ classify (ToLower (fst row)) ≠ t) (rowsSent db))
    (dbs ++ [db]) →
  readMetric t (serve dbs σ) = Some v
  ∧ series t v ∈ snd (Collect db (serve dbs σ)).
Proof.
  intros Hwf Hread [Hdbs [Hdb _]%Forall_cons]%Forall_app.
  assert (readMetric t (serve dbs σ) = Some v) as Hread'
    by by rewrite serve_other_target.
  assert (wf (serve dbs σ)) as Hwf' by by apply wf_serve.
  split; [done|]. apply Collect_exposes_series; [done|].
  by rewrite Collect_other_target.
Qed.

(** X9.  In a state that satisfies the invariant of the registry, no
    sequence of collections makes a series of any family disappear: a
    series that holds a value holds one afterwards, whatever the databases
    answer. *)
Theorem series_never_disappear (t : Family * string) (σ : State) (dbs : list DB) :
  wf σ → is_Some (readMetric t σ) → is_Some (readMetric t (serve dbs σ)).
Proof.
  revert σ. induction dbs as [|db dbs IH]; intros σ Hwf Hsome; [done|].
  rewrite serve_cons. apply IH; [by apply wf_Collect|].
  rewrite Collect_state. apply setMetrics_keeps_series; [by apply wf_scraped|].
  by rewrite readMetric_scraped.
Qed.

(** X10.  When opening the connection or the first query fails, [Collect]
    changes nothing but the three process metrics: the registry, the heap
    of metric objects and the four vectors are as before, so every series
    reads as it did. *)
Theorem failed_scrape_keeps_registry (db : DB) (σ : State) :
  open db = Err ∨ globalStatus db = Err →
  fst (Collect db σ)
  = with_ex (fun e => finish 1 db (with_totalScrapes (totalScrapes e + 1)%float e)) σ
  ∧ ∀ t, readMetric t (fst (Collect db σ)) = readMetric t σ.
Proof.
  intros Hfail.
  assert (scrape db (ex σ)
          = (finish 1 db (with_totalScrapes (totalScrapes (ex σ) + 1)%float (ex σ)), []))
    as Hscrape.
  { unfold scrape. destruct Hfail as [->| ->]; [done|]. by destruct (open db). }
  assert (fst (Collect db σ)
          = with_ex (fun e => finish 1 db
                                (with_totalScrapes (totalScrapes e + 1)%float e)) σ)
    as Hstate.
  { rewrite Collect_state. unfold rowsSent.
    assert (snd (scrape db (NewMySQLExporter "")) = []) as ->.
    { rewrite scrape_rows, <- (scrape_rows db (ex σ)). by rewrite Hscrape. }
    by rewrite Hscrape. }
  split; [done|]. intros t. rewrite Hstate.
  by destruct t as [[] key].
Qed.

(** X11.  Every [Collect] adds one to the total scrapes, whether its scrape
    succeeds or fails: after a sequence of collections the counter has been
    incremented once for each of them. *)
Theorem totalScrapes_counts_collections (dbs : list DB) (σ : State) :
  totalScrapes (ex (serve dbs σ))
  = Nat.iter (length dbs) (fun x => (x + 1)%float) (totalScrapes (ex σ)).
Proof.
  revert σ. induction dbs as [|db dbs IH]; intros σ; [done|].
  rewrite serve_cons, IH, Collect_totalScrapes. cbn [length].
  by rewrite Nat.iter_succ_r.
Qed.

(** X12.  The invariant of the registry holds in every state the process
    reaches from [NewMySQLExporter]: every name of the registry has a handle
    to an allocated metric object whose descriptor is named after it, no
    two names share an object, and the next address is above every
    object. *)
Theorem reachable_states_are_well_formed (dsn : string) (dbs : list DB) :
  wf (serve dbs (start dsn)).
Proof. apply wf_serve, wf_start. Qed.

(** X13.  Every sample [Collect] emits is described by [Describe] in the
    state [Collect] leaves: a descriptor of that name and those label names
    is sent. *)
Theorem Collect_samples_are_described (db : DB) (σ : State) (s : Sample) :
  s ∈ snd (Collect db σ) → descOf s ∈ Describe (fst (Collect db σ)).
Proof.
  unfold Collect. destruct (scrape db (ex σ)) as [e1 scrapes]. cbn [fst snd].
  set (σ' := setMetrics scrapes (with_ex (fun _ => e1) σ)).
  unfold Describe. rewrite !elem_of_cons, !elem_of_app.
  assert (∀ name l vec, s ∈ collectVec name l vec → descOf s = mkDesc name [l])
    as Hvec.
  { intros name l vec ([k v] & -> & _)%list_elem_of_fmap. done. }
  intros [->|[->|[->|[Hgen|[Hc|[He|[Hi|Hp]]]]]]].
  - right. do 4 apply list_elem_of_further. apply list_elem_of_here.
  - right. do 5 apply list_elem_of_further. apply list_elem_of_here.
  - right. do 6 apply list_elem_of_further. apply list_elem_of_here.
  - left. apply list_elem_of_omap in Hgen as (h & Hh & Hs).
    apply list_elem_of_omap. exists h. split; [done|].
    unfold readUntyped, describeUntyped in *.
    destruct (heap σ' !! h) as [m|]; [|done]. by injection Hs as <-.
  - right. rewrite (Hvec _ _ _ Hc). apply list_elem_of_here.
  - right. rewrite (Hvec _ _ _ He). apply list_elem_of_further, list_elem_of_here.
  - right. rewrite (Hvec _ _ _ Hi). do 2 apply list_elem_of_further.
    apply list_elem_of_here.
  - right. rewrite (Hvec _ _ _ Hp). do 3 apply list_elem_of_further.
    apply list_elem_of_here.
Qed.

End Further.

(** ** The further properties at concrete scrapes *)

Lemma last_numeric_row_is_exposed_witness :
  let db := mkDB (Ok ())
              (Ok (delivered [("Questions", "7"); ("QUESTIONS", "9"); ("Com_select", "10")]))
              noReplica 0 1000 in
  readMetric (Generic, "questions") (fst (Collect db (start "dsn"))) = Some 9%float
  ∧ mkSample "mysql_questions" [] 9 ∈ snd (Collect db (start "dsn")).
Proof.
  intros db.
  refine (last_numeric_row_is_exposed db (start "dsn") [("Questions", "7")]
            [("Com_select", "10"); ("Slave_IO_Running", ""); ("Seconds_Behind_Master", "")]
            "QUESTIONS" "9" 9 (wf_start "dsn") eq_refl eq_refl _).
  constructor; [right; vm_compute; discriminate|].
  constructor; [left; reflexivity|].
  constructor; [left; reflexivity|constructor].
Defined.

Lemma series_kept_when_not_written_witness :
  let σ := fst (Collect dbScenario (start "dsn")) in
  readMetric (Commands, "select") σ = Some 10%float
  ∧ readMetric (Commands, "select") (serve [dbThreads] σ) = Some 10%float
  ∧ mkSample "mysql_commands_total" [("command", "select")] 10
    ∈ snd (Collect dbThreads (serve [dbThreads] σ)).
Proof.
  intros σ. split; [reflexivity|].
  assert (Forall (fun row : string * string =>
                    ParseFloat (snd row) = None
                    ∨ classify (ToLower (fst row)) ≠ (Commands, "select"))
            (rowsSent dbThreads)) as Hquiet.
  { change (rowsSent dbThreads)
      with [("Threads_connected", "5"); ("Slave_IO_Running", "");
            ("Seconds_Behind_Master", "")].
    constructor; [right; vm_compute; discriminate|].
    constructor; [left; reflexivity|].
    constructor; [left; reflexivity|constructor]. }
  refine (series_kept_when_not_written (Commands, "select") 10 σ [dbThreads] dbThreads
            _ eq_refl _).
  - apply wf_Collect, wf_start.
  - constructor; [exact Hquiet|]. constructor; [exact Hquiet|constructor].
Defined.

Lemma series_never_disappear_witness :
  let σ := fst (Collect dbScenario (start "dsn")) in
  is_Some (readMetric (InnodbRows, "read") σ)
  ∧ is_Some (readMetric (InnodbRows, "read") (serve [dbScanError; dbThreads] σ)).
Proof.
  intros σ.
  assert (is_Some (readMetric (InnodbRows, "read") σ)) as Hsome
    by (exists 42%float; reflexivity).
  split; [exact Hsome|].
  refine (series_never_disappear (InnodbRows, "read") σ [dbScanError; dbThreads] _ Hsome).
  apply wf_Collect, wf_start.
Defined.

Lemma failed_scrape_keeps_registry_witness :
  let σ := fst (Collect dbScenario (start "dsn")) in
  let db := mkDB Err Err Err 0 1000 in
  readMetric (Generic, "threads_connected") (fst (Collect db σ)) = Some 5%float
  ∧ metrics (ex (fst (Collect db σ))) = metrics (ex σ)
  ∧ error (ex (fst (Collect db σ))) = 1%float.
Proof.
  intros σ db.
  destruct (failed_scrape_keeps_registry db σ (or_introl eq_refl)) as [Hstate Hread].
  split; [rewrite Hread; reflexivity|].
  rewrite Hstate. split; reflexivity.
Defined.

Lemma Collect_samples_are_described_witness :
  mkSample "mysql_threads_connected" [] 5 ∈ snd (Collect dbThreads (start "dsn"))
  ∧ mkDesc "mysql_threads_connected" []
    ∈ Describe (fst (Collect dbThreads (start "dsn"))).
Proof.
  assert (mkSample "mysql_threads_connected" [] 5
          ∈ snd (Collect dbThreads (start "dsn"))) as Hin.
  { vm_compute. do 3 apply list_elem_of_further. apply list_elem_of_here. }
  split; [exact Hin|].
  exact (Collect_samples_are_described dbThreads (start "dsn") _ Hin).
Defined.

(** ** The names of the generic metrics *)

Lemma BuildFQName_inj (a b : string) :
  BuildFQName namespace a = BuildFQName namespace b → a = b.
Proof.
  unfold BuildFQName.
  destruct (String.eqb_spec a "") as [->|_], (String.eqb_spec b "") as [->|_];
    try done.
  intros E. by apply (inj (String.app "mysql_")) in E.
Qed.

Lemma generic_sample_names (σ : State) (l : list (string * loc)) :
  Forall (fun nh => ∃ m, heap σ !! snd nh = Some m
                         ∧ fqName m = BuildFQName namespace (fst nh)) l →
  sampleName <$> omap (readUntyped σ) (snd <$> l)
  = BuildFQName namespace <$> (fst <$> l).
Proof.
  induction 1 as [|[n h] l (m & Hm & Hfq) _ IH]; [done|].
  cbn [fmap list_fmap omap list_omap fst snd] in *.
  unfold readUntyped at 1. rewrite Hm. cbn. by rewrite Hfq, IH.
Qed.

(** X14.  In a state that satisfies the invariant of the registry,
    [collectMetrics] sends no metric object twice, and the generic metrics
    it sends have pairwise different names: the names of the registry under
    mysql_. *)
Theorem generic_metrics_are_distinct (σ : State) :
  wf σ →
  NoDup (collectMetrics (ex σ))
  ∧ NoDup (sampleName <$> omap (readUntyped σ) (collectMetrics (ex σ)))
  ∧ sampleName <$> omap (readUntyped σ) (collectMetrics (ex σ))
    = BuildFQName namespace <$> (fst <$> map_to_list (metrics (ex σ))).
Proof.
  intros (Halloc & Hinj & _). unfold collectMetrics.
  assert (sampleName <$> omap (readUntyped σ) (snd <$> map_to_list (metrics (ex σ)))
          = BuildFQName namespace <$> (fst <$> map_to_list (metrics (ex σ)))) as Hnames.
  { apply generic_sample_names, Forall_forall. intros [n h] Hin.
    apply elem_of_map_to_list in Hin. by apply Halloc in Hin as (_ & Hm). }
  split; [|split; [|done]].
  - apply NoDup_fmap_2_strong; [|apply NoDup_map_to_list].
    intros [n1 h1] [n2 h2] H1%elem_of_map_to_list H2%elem_of_map_to_list.
    cbn [snd]. intros <-. f_equal. by apply (Hinj _ _ h1).
  - rewrite Hnames. apply NoDup_fmap_2_strong; [|apply NoDup_fst_map_to_list].
    intros a b _ _. apply BuildFQName_inj.
Qed.

Lemma generic_metrics_are_distinct_witness :
  let σ := fst (Collect dbScenario (start "dsn")) in
  NoDup (collectMetrics (ex σ))
  ∧ sampleName <$> omap (readUntyped σ) (collectMetrics (ex σ))
    = ["mysql_threads_connected"].
Proof.
  intros σ.
  destruct (generic_metrics_are_distinct σ (wf_Collect dbScenario _ (wf_start "dsn")))
    as (Hnodup & _ & Hnames).
  split; [exact Hnodup|]. rewrite Hnames. reflexivity.
Defined.
